(** * PG_Ninja: query executor, transaction coordinator and batch runner

    A shallow embedding of [src/index.ts].  The class wraps one [pg.Client];
    the client is an external collaborator and is modelled as a state machine
    [exec] over an abstract database state.  Promises, [await], [try]/[catch]
    and the mutable report object of [multiquery] are modelled with a small
    state-and-exception monad. *)

From Stdlib Require Import ZArith Lia.
From stdpp Require Import base option list gmap strings pretty.

Local Open Scope string_scope.
Local Open Scope list_scope.

(** ** JavaScript values (the [any] of the signatures) *)

Unset Elimination Schemes.
Inductive JsVal : Type :=
| JUndefined
| JNull
| JBool (b : bool)
| JNum (z : Z)
| JStr (s : string)
| JArr (items : list JsVal)
| JObj (fields : list (string * JsVal)).
Set Elimination Schemes.

(** A thrown value: an [Error] object, identified by its [message]. *)
Record Error : Type := mkError { message : string }.

(** JavaScript truthiness, as used by [params ? .. : ..], [if (saveSuccess)]. *)
Definition truthy (v : JsVal) : bool :=
  match v with
  | JUndefined | JNull => false
  | JBool b => b
  | JNum z => negb (z =? 0)%Z
  | JStr s => negb (String.eqb s "")
  | JArr _ | JObj _ => true
  end.

(** [v ?? d] *)
Definition nullish (v d : JsVal) : JsVal :=
  match v with
  | JUndefined | JNull => d
  | _ => v
  end.

Fixpoint assoc (k : string) (fields : list (string * JsVal)) : option JsVal :=
  match fields with
  | [] => None
  | (k', v) :: rest => if String.eqb k k' then Some v else assoc k rest
  end.

(** [v[i]] for a numeric index [i]: property access throws a [TypeError] on
    [undefined] and [null], and yields [undefined] for a missing property. *)
Definition js_index (v : JsVal) (i : nat) : Error + JsVal :=
  match v with
  | JUndefined => inl (mkError "Cannot read properties of undefined")
  | JNull => inl (mkError "Cannot read properties of null")
  | JBool _ | JNum _ => inr JUndefined
  | JStr s =>
      inr (match String.get i s with
           | Some c => JStr (String c EmptyString)
           | None => JUndefined
           end)
  | JArr items => inr (default JUndefined (items !! i))
  | JObj fields => inr (default JUndefined (assoc (pretty i) fields))
  end.

(** [args[0]] and [args.at(-1)] on the rest-parameter array. *)
Definition args_first (args : list JsVal) : JsVal := default JUndefined (args !! 0).
Definition args_last (args : list JsVal) : JsVal := default JUndefined (last args).

(** ** Results of the driver *)

(** [pg.QueryResult]; [command = None] is the absent ([undefined]) command
    tag, [rows = None] an absent row array.  [to_excel] records whether the
    export hook has been attached to the object. *)
Record QueryResult : Type := mkResult {
  command : option string;
  rows : option (list JsVal);
  rowCount : option Z;
  to_excel : bool
}.

(** What the driver hands to the callback [(err, res)]. *)
Abbreviation Response := (Error + QueryResult)%type.

(** A statement as it reaches [client.query]: the text and the arguments
    spread between the text and the callback. *)
Definition Statement : Type := string * list JsVal.

Inductive Color : Type := white | green | yellow | red | blue.

Definition esc : string := String (Ascii.ascii_of_nat 27) EmptyString.

Definition colors (c : Color) : string :=
  match c with
  | white => esc +:+ "[37m"
  | green => esc +:+ "[32m"
  | yellow => esc +:+ "[33m"
  | red => esc +:+ "[31m"
  | blue => esc +:+ "[34m"
  end.

(** One [console.log] call: the colour escape and the message.  The
    timestamp prefix comes from the locale-formatted system clock and is left
    out of the line. *)
Definition Line : Type := string * string.

(** The state of a promise. *)
Inductive Settled (A : Type) : Type :=
| Pending
| Fulfilled (a : A)
| Rejected (e : Error).
Arguments Pending {A}.
Arguments Fulfilled {A} a.
Arguments Rejected {A} e.

(** The promise of [transaction]; [None] is the value [undefined] of the
    never-assigned [let r]. *)
Abbreviation TxPromise := (Settled (option QueryResult)).

(** [resolve]/[reject] only take effect on a pending promise. *)
Definition settle {A} (cur new : Settled A) : Settled A :=
  match cur with
  | Pending => new
  | _ => cur
  end.

(** [BatchReport]: the object [resp] of [multiquery]. *)
Record Report : Type := mkReport {
  completed : nat;
  completed_of : nat;
  success_query_list : gmap nat (list JsVal);
  failed_query_list : gmap nat (string * JsVal);
  error_list : gmap nat Error;
  fatal_error : option Error;
  operation_time : Z;
  success : bool
}.

(** ** The world

    [log] is the private flag [#log]; [db] and [wire] are the connection (its
    state and the statements sent so far, oldest first); [console] is the
    output of [console.log]; [reads] counts the readings of the clock whose
    value the program uses, those of [new Date().valueOf()] in [multiquery];
    [local] holds the objects captured by the closures of the running
    method.  The [new Date()] behind the timestamp of a printed line belongs
    to the prefix left out of [Line] and is not counted in [reads]. *)
Record World (DB L : Type) : Type := mkWorld {
  log : bool;
  db : DB;
  wire : list Statement;
  console : list Line;
  reads : nat;
  local : L
}.
Arguments mkWorld {DB L}.
Arguments log {DB L}.
Arguments db {DB L}.
Arguments wire {DB L}.
Arguments console {DB L}.
Arguments reads {DB L}.
Arguments local {DB L}.

Definition set_local {DB L L'} (l : L') (w : World DB L) : World DB L' :=
  mkWorld (log w) (db w) (wire w) (console w) (reads w) l.

Definition set_log {DB L} (b : bool) (w : World DB L) : World DB L :=
  mkWorld b (db w) (wire w) (console w) (reads w) (local w).

(** ** A scripted driver

    Its state is the list of responses still to be given, one per statement;
    once the script is used up every statement succeeds with one row and the
    first word of its text as command tag. *)

Definition result_of (tag : option string) (rs : list JsVal) : QueryResult :=
  mkResult tag (Some rs) (Some (Z.of_nat (length rs))) false.

Definition one_row : list JsVal := [JObj [("id", JNum 1)]].

Fixpoint first_word (text : string) : string :=
  match text with
  | EmptyString => EmptyString
  | String c rest =>
      if Ascii.eqb c (Ascii.ascii_of_nat 32) then EmptyString else String c (first_word rest)
  end.

Definition scripted (script : list Response) (text : string) (args : list JsVal)
  : list Response * Response :=
  match script with
  | [] => ([], inr (result_of (Some (first_word text)) one_row))
  | r :: rest => (rest, r)
  end.

Definition fresh (flag : bool) (script : list Response) : World (list Response) unit :=
  mkWorld flag script [] [] 0 tt.

Definition wall_clock (k : nat) : Z := 1000 + 7 * Z.of_nat k.

(** A successful answer with command tag [tag] and rows [rs]. *)
Definition answered (tag : string) (rs : list JsVal) : Response :=
  inr (result_of (Some tag) rs).

(** Three SELECTs of which the second finds nothing. *)
Definition three_selects : list (string * JsVal) :=
  [("SELECT * FROM a", JArr []); ("SELECT * FROM b", JArr []); ("SELECT * FROM c", JArr [])].

Definition second_is_empty : list Response :=
  [answered "SELECT" one_row; answered "SELECT" []; answered "SELECT" one_row].

(** One parameter list per query, given apart from the queries as in
    [multiquery(three_selects, [[1], [2], [3]])], and the queries as they are
    then dispatched. *)
Definition one_list_each : JsVal := JArr [JArr [JNum 1]; JArr [JNum 2]; JArr [JNum 3]].

Definition three_selects_dispatched : list (string * JsVal) :=
  [("SELECT * FROM a", JArr [JNum 1]); ("SELECT * FROM b", JArr [JNum 2]);
   ("SELECT * FROM c", JArr [JNum 3])].


(** ** A driver that judges each statement by its text

    Its state counts the statements seen; the text "INVALID SQL" is answered
    with an error and everything else with one row. *)
Definition picky (seen : nat) (text : string) (args : list JsVal) : nat * Response :=
  (S seen,
   if String.eqb text "INVALID SQL" then inl (mkError "syntax error")
   else answered (first_word text) one_row).


(** Two INSERTs, for the runs of [transaction] below. *)
Definition two_inserts : list string :=
  ["INSERT INTO t VALUES (1)"; "INSERT INTO t VALUES (2)"].

(** A result without a command tag. *)
Definition no_tag : Response := inr (result_of None []).

(** The report of a settled call, the empty report when it did not resolve. *)
Definition report_of {W : Type} (run : W * Settled Report) : Report :=
  match snd run with
  | Fulfilled r => r
  | _ => mkReport 0 0 ∅ ∅ ∅ None 0 true
  end.


(** The second of three SELECTs is refused by the driver. *)
Definition second_is_refused : list Response :=
  [answered "SELECT" one_row; inl (mkError "relation b does not exist");
   answered "SELECT" one_row].

Section Ninja.

(** The connection handle: an abstract database state and the driver's
    reaction to one statement. *)
Context {DB : Type}.
Variable exec : DB -> string -> list JsVal -> DB * Response.
(** The system clock: the value of the [k]-th [new Date().valueOf()]. *)
Variable clock : nat -> Z.

(** ** The monad *)

(** A computation either returns or throws, and changes the world. *)
Definition M (L A : Type) : Type := World DB L -> World DB L * (Error + A).

Definition ret {L A} (a : A) : M L A := fun w => (w, inr a).

Definition throw {L A} (e : Error) : M L A := fun w => (w, inl e).

Definition bind {L A B} (m : M L A) (k : A -> M L B) : M L B :=
  fun w =>
    match m w with
    | (w', inl e) => (w', inl e)
    | (w', inr a) => k a w'
    end.

(** [try { m } catch (e) { h e }] *)
Definition try_catch {L A} (m : M L A) (h : Error -> M L A) : M L A :=
  fun w =>
    match m w with
    | (w', inl e) => h e w'
    | (w', inr a) => (w', inr a)
    end.

(** Calling an [async] function: it runs to its end and its outcome is kept
    in the promise it returns; the caller does not see a throw. *)
Definition spawn {L A} (m : M L A) : M L (Error + A) :=
  fun w => let (w', r) := m w in (w', inr r).

(** [await p] on a settled outcome. *)
Definition await {L A} (p : Error + A) : M L A :=
  match p with
  | inl e => throw e
  | inr a => ret a
  end.

Definition get_local {L} : M L L := fun w => (w, inr (local w)).

Definition modify_local {L} (f : L -> L) : M L unit :=
  fun w => (set_local (f (local w)) w, inr tt).

(** A block that declares the objects [l0] its closures capture. *)
Definition with_local {L L' A} (l0 : L') (m : M L' A) : M L A :=
  fun w => let (w', r) := m (set_local l0 w) in (set_local (local w) w', r).

(** An [async] method that returns a promise: the caller's promise follows
    the returned one, and is rejected with what the body throws. *)
Definition async_call {L A} (body : M L (Settled A)) (w : World DB L) : World DB L * Settled A :=
  match body w with
  | (w', inl e) => (w', Rejected e)
  | (w', inr p) => (w', p)
  end.

Declare Scope ninja_scope.
Delimit Scope ninja_scope with ninja.
Bind Scope ninja_scope with M.
Notation "x <- m ;; k" := (bind m (fun x => k))
  (at level 100, m at next level, right associativity) : ninja_scope.
Notation "m ;; k" := (bind m (fun _ => k))
  (at level 100, right associativity) : ninja_scope.
Local Open Scope ninja_scope.

(** ** The collaborators *)

(** [this.#client.query(text, ...args, callback)]: the statement goes on the
    wire and the driver calls back with [(err, res)].  The callback is the
    driver's third positional argument only when at most one value is spread
    before it, which is the case for every call [transaction] and
    [multiquery] make; the model describes the driver for such calls, and
    statements about the outcome of a call with more values are not drawn
    from it. *)
Definition client_call {L} (text : string) (args : list JsVal) : M L Response :=
  fun w =>
    let (db', r) := exec (db w) text args in
    (mkWorld (log w) db' (wire w ++ [(text, args)]) (console w) (reads w) (local w),
     inr r).

(** [await this.#client.query(text)]: the promise form, a driver error is
    thrown at the [await]. *)
Definition client_await {L} (text : string) : M L QueryResult :=
  r <- client_call text [] ;; await r.

(** [this.#send_log(message, color)]: with the flag set, one line goes to the
    console.  The line's timestamp, and the [new Date()] that produces it, are
    not modelled: [reads] is left as it is. *)
Definition send_log {L} (msg : string) (color : Color) : M L unit :=
  fun w =>
    if log w
    then (mkWorld (log w) (db w) (wire w) (console w ++ [(colors color, msg)])
            (reads w) (local w), inr tt)
    else (w, inr tt).

(** [new Date().valueOf()] *)
Definition date_now {L} : M L Z :=
  fun w =>
    (mkWorld (log w) (db w) (wire w) (console w) (S (reads w)) (local w),
     inr (clock (reads w))).

(** ** Query executor: [query(q, ...args)] *)

Definition attach_excel (res : QueryResult) : QueryResult :=
  mkResult (command res) (rows res) (rowCount res) true.

Definition is_select (res : QueryResult) : bool :=
  match command res with
  | Some c => String.eqb c "SELECT"
  | None => false
  end.

(** [if (res.command === "SELECT") res.to_excel = ..] *)
Definition decorate (res : QueryResult) : QueryResult :=
  if is_select res then attach_excel res else res.

Definition query {L} (q : string) (args : list JsVal) : M L QueryResult :=
  r <- client_call q args ;;
  match r with
  | inl err =>
      send_log ("error with query: " +:+ q) yellow ;;
      throw err
  | inr res =>
      send_log ("success query: " +:+ q) blue ;;
      ret (decorate res)
  end.

(** ** Transaction coordinator: [transaction(queries, bodies)] *)

Definition resolve_tx (r : option QueryResult) : M TxPromise unit :=
  modify_local (fun p => settle p (Fulfilled r)).

Definition reject_tx (e : Error) : M TxPromise unit :=
  modify_local (fun p => settle p (Rejected e)).

(** [queries.map((x, i) => [x, bodies[i]])], from index [i] on. *)
Fixpoint zip_bodies (i : nat) (queries : list string) (bodies : list JsVal)
  : list (string * JsVal) :=
  match queries with
  | [] => []
  | x :: rest => (x, default JUndefined (bodies !! i)) :: zip_bodies (S i) rest bodies
  end.

(** [r.command !== undefined] *)
Definition has_tag (res : QueryResult) : bool :=
  match command res with
  | Some _ => true
  | None => false
  end.

(** The [for] loop over [queryArgs]; [r] is the loop-carried variable and
    [n] is [queries.length]. *)
Fixpoint tx_loop (n : nat) (queryArgs : list (string * JsVal)) (r : option QueryResult)
  : M TxPromise (option QueryResult) :=
  match queryArgs with
  | [] => ret r
  | qa :: rest =>
      r' <- query (fst qa) [snd qa] ;;
      (if negb (has_tag r') then
         send_log ("failed transaction of " +:+ pretty n +:+ " queries") yellow ;;
         client_await "ROLLBACK" ;;
         reject_tx (mkError "Transaction failed")
       else ret tt) ;;
      tx_loop n rest (Some r')
  end.

(** The body of the [async] executor. *)
Definition tx_executor (queries : list string) (bodies : list JsVal) : M TxPromise unit :=
  try_catch
    (let queryArgs := zip_bodies 0 queries bodies in
     client_await "BEGIN" ;;
     r <- tx_loop (length queries) queryArgs None ;;
     client_await "COMMIT" ;;
     send_log ("success transaction of " +:+ pretty (length queries) +:+ " queries") blue ;;
     resolve_tx r)
    (fun e =>
       send_log ("fatal error with transaction of " +:+ pretty (length queries)
                 +:+ " queries: " +:+ message e) red ;;
       client_await "ROLLBACK" ;;
       reject_tx e).

(** [new Promise(async (resolve, reject) => ..)]: the executor runs on a
    pending promise; what the executor itself throws is dropped, and the
    promise is returned in the state the executor left it in. *)
Definition transaction_body {L} (queries : list string) (bodies : list JsVal)
  : M L TxPromise :=
  with_local Pending (spawn (tx_executor queries bodies) ;; get_local).

Definition transaction {L} (queries : list string) (bodies : list JsVal)
  : World DB L -> World DB L * TxPromise :=
  async_call (transaction_body queries bodies).

(** ** Concurrent batch runner: [multiquery(qrs, ...args)] *)

(** The objects the closures of [multiquery] share: the report [resp] and
    the promise that is returned. *)
Record BatchLocal : Type := mkBatchLocal {
  resp : Report;
  promise : Settled Report
}.

Definition initial_resp (n : nat) : Report :=
  mkReport 0 n ∅ ∅ ∅ None 0 true.

Definition incr_completed (r : Report) : Report :=
  mkReport (S (completed r)) (completed_of r) (success_query_list r)
    (failed_query_list r) (error_list r) (fatal_error r) (operation_time r) (success r).

Definition set_success_rows (i : nat) (rs : list JsVal) (r : Report) : Report :=
  mkReport (completed r) (completed_of r) (<[i := rs]> (success_query_list r))
    (failed_query_list r) (error_list r) (fatal_error r) (operation_time r) (success r).

Definition set_failed (i : nat) (qa : string * JsVal) (r : Report) : Report :=
  mkReport (completed r) (completed_of r) (success_query_list r)
    (<[i := qa]> (failed_query_list r)) (error_list r) (fatal_error r)
    (operation_time r) (success r).

Definition set_error (i : nat) (e : Error) (r : Report) : Report :=
  mkReport (completed r) (completed_of r) (success_query_list r)
    (failed_query_list r) (<[i := e]> (error_list r)) (fatal_error r)
    (operation_time r) (success r).

Definition set_fatal_error (e : Error) (r : Report) : Report :=
  mkReport (completed r) (completed_of r) (success_query_list r)
    (failed_query_list r) (error_list r) (Some e) (operation_time r) (success r).

Definition set_operation_time (t : Z) (r : Report) : Report :=
  mkReport (completed r) (completed_of r) (success_query_list r)
    (failed_query_list r) (error_list r) (fatal_error r) t (success r).

Definition set_success (b : bool) (r : Report) : Report :=
  mkReport (completed r) (completed_of r) (success_query_list r)
    (failed_query_list r) (error_list r) (fatal_error r) (operation_time r) b.

Definition modify_resp (f : Report -> Report) : M BatchLocal unit :=
  modify_local (fun l => mkBatchLocal (f (resp l)) (promise l)).

(** [resolve(resp)] *)
Definition resolve_resp : M BatchLocal unit :=
  modify_local (fun l => mkBatchLocal (resp l) (settle (promise l) (Fulfilled (resp l)))).

(** [qrs.map((x, i) => [x[0], params[i]])], from index [i] on. *)
Fixpoint override_params (i : nat) (qrs : list (string * JsVal)) (params : JsVal)
  : Error + list (string * JsVal) :=
  match qrs with
  | [] => inr []
  | x :: rest =>
      match js_index params i with
      | inl e => inl e
      | inr v =>
          match override_params (S i) rest params with
          | inl e => inl e
          | inr tl => inr ((fst x, v) :: tl)
          end
      end
  end.

(** [!res.rows || res.rows.length === 0] *)
Definition no_rows (res : QueryResult) : bool :=
  match rows res with
  | None | Some [] => true
  | Some (_ :: _) => false
  end.

(** The [async] callback of [queryArgs.map], for item [i]. *)
Definition batch_item (saveSuccess : JsVal) (i : nat) (queryArg : string * JsVal)
  : M BatchLocal unit :=
  try_catch
    (res <- query (fst queryArg) [snd queryArg] ;;
     if no_rows res then
       modify_resp (set_failed i queryArg) ;;
       modify_resp (set_error i (mkError "Query returned no rows"))
     else
       modify_resp incr_completed ;;
       if truthy saveSuccess
       then modify_resp (set_success_rows i (default [] (rows res)))
       else ret tt)
    (fun error =>
       modify_resp (set_failed i queryArg) ;;
       modify_resp (set_error i error) ;;
       modify_resp (set_success false)).

(** [queryArgs.map(async (queryArg, i) => ..)], from index [i] on: one
    promise per item.  The driver serves one connection in order, so item
    [i] is answered, and its callback has run, before item [i + 1]; the
    report would be the same for any other order ([settle_order_irrelevant]
    below). *)
Fixpoint spawn_items (saveSuccess : JsVal) (i : nat) (queryArgs : list (string * JsVal))
  : M BatchLocal (list (Error + unit)) :=
  match queryArgs with
  | [] => ret []
  | qa :: rest =>
      p <- spawn (batch_item saveSuccess i qa) ;;
      ps <- spawn_items saveSuccess (S i) rest ;;
      ret (p :: ps)
  end.

(** [Promise.all] rejects with the first rejection among its promises. *)
Fixpoint first_rejection (promises : list (Error + unit)) : option Error :=
  match promises with
  | [] => None
  | inl e :: _ => Some e
  | inr _ :: rest => first_rejection rest
  end.

(** [await Promise.all(promises)] *)
Definition await_all {L} (promises : list (Error + unit)) : M L unit :=
  match first_rejection promises with
  | Some e => throw e
  | None => ret tt
  end.

(** The body of the [async] executor; [n] is [qrs.length]. *)
Definition batch_executor (n : nat) (promises : list (Error + unit)) : M BatchLocal unit :=
  try_catch
    (startTime <- date_now ;;
     await_all promises ;;
     endTime <- date_now ;;
     modify_resp (set_operation_time (endTime - startTime)) ;;
     l <- get_local ;;
     send_log ("new " +:+ pretty (completed (resp l)) +:+ "/"
               +:+ pretty (completed_of (resp l)) +:+ " multi-query") white ;;
     resolve_resp)
    (fun e =>
       modify_resp (set_fatal_error e) ;;
       modify_resp (set_success false) ;;
       send_log ("fatal error of " +:+ pretty n +:+ " queries multi-query: "
                 +:+ message e) red ;;
       resolve_resp).

(** [params ? qrs.map((x, i) => [x[0], params[i]]) : qrs] *)
Definition batch_queryArgs (qrs : list (string * JsVal)) (params : JsVal)
  : Error + list (string * JsVal) :=
  if truthy params then override_params 0 qrs params else inr qrs.

(** The body of [multiquery]: it returns the promise, or throws. *)
Definition multiquery_body {L} (qrs : list (string * JsVal)) (args : list JsVal)
  : M L (Settled Report) :=
  let params := args_first args in
  let saveSuccess := nullish (args_last args) (JBool false) in
  queryArgs <- await (batch_queryArgs qrs params) ;;
  with_local (mkBatchLocal (initial_resp (length qrs)) Pending)
    (promises <- spawn_items saveSuccess 0 queryArgs ;;
     spawn (batch_executor (length qrs) promises) ;;
     l <- get_local ;;
     ret (promise l)).

Definition multiquery {L} (qrs : list (string * JsVal)) (args : list JsVal)
  : World DB L -> World DB L * Settled Report :=
  async_call (multiquery_body qrs args).

(** ** Reference notions for the statements below *)

(** [feed d stmts] is what the driver answers when the statements [stmts]
    reach it in this order, starting from state [d]. *)
Fixpoint feed (d : DB) (stmts : list Statement) : DB * list Response :=
  match stmts with
  | [] => (d, [])
  | st :: rest =>
      let (d1, r) := exec d (fst st) (snd st) in
      let (d2, rs) := feed d1 rest in
      (d2, r :: rs)
  end.

(** The statement [this.query(queryArg[0], queryArg[1])] puts on the wire. *)
Definition item_statement (qa : string * JsVal) : Statement := (fst qa, [snd qa]).

(** A step succeeds when the driver answers with a result that has a
    command tag. *)
Definition step_succeeds (r : Response) : bool :=
  match r with
  | inr res => has_tag res
  | inl _ => false
  end.

(** The result of the last query as the executor hands it on, [r0] when
    there was no query. *)
Definition final_result (r0 : option QueryResult) (rs : list Response)
  : option QueryResult :=
  match last rs with
  | Some (inr res) => Some (decorate res)
  | Some (inl _) => None
  | None => r0
  end.

(** [w1] is [w] after the statements [sent] went out and the driver moved to
    [d1]; console output apart, nothing else changed. *)
Definition advanced {L} (w w1 : World DB L) (d1 : DB) (sent : list Statement) : Prop :=
  db w1 = d1 /\ wire w1 = wire w ++ sent /\ local w1 = local w /\
  log w1 = log w /\ reads w1 = reads w.

(** Two worlds that agree on everything but the flag and the console. *)
Definition agree {L} (w1 w2 : World DB L) : Prop :=
  db w1 = db w2 /\ wire w1 = wire w2 /\ reads w1 = reads w2 /\ local w1 = local w2.

(** A computation the flag cannot influence: from agreeing worlds it reaches
    agreeing worlds with the same outcome; and it prints nothing while the
    flag is off. *)
Definition flag_blind {L A} (m : M L A) : Prop :=
  (forall w1 w2, agree w1 w2 ->
     agree (fst (m w1)) (fst (m w2)) /\ snd (m w1) = snd (m w2)) /\
  (forall w, log w = false ->
     log (fst (m w)) = false /\ console (fst (m w)) = console w).

(** A computation of the transaction executor that only adds to the wire
    and leaves a rejected promise rejected. *)
Definition orderly {A} (m : M TxPromise A) : Prop :=
  forall w,
    (exists sent, wire (fst (m w)) = wire w ++ sent) /\
    (forall e, local w = Rejected e -> local (fst (m w)) = Rejected e).

(** The world after [send_log]. *)
Definition logged {L} (msg : string) (c : Color) (w : World DB L) : World DB L :=
  mkWorld (log w) (db w) (wire w)
    (if log w then console w ++ [(colors c, msg)] else console w) (reads w) (local w).

(** The same for the connection only; the two worlds may hold different
    local objects. *)
Definition moved {L L'} (w : World DB L) (w1 : World DB L') (d1 : DB)
    (sent : list Statement) : Prop :=
  db w1 = d1 /\ wire w1 = wire w ++ sent /\ log w1 = log w.

(** What item [i] does to the report when the driver answers [r]. *)
Definition record_item (saveSuccess : JsVal) (i : nat) (qa : string * JsVal)
    (r : Response) (rp : Report) : Report :=
  match r with
  | inl error => set_success false (set_error i error (set_failed i qa rp))
  | inr res =>
      if no_rows res
      then set_error i (mkError "Query returned no rows") (set_failed i qa rp)
      else if truthy saveSuccess
           then set_success_rows i (default [] (rows res)) (incr_completed rp)
           else incr_completed rp
  end.

(** The same for the items from index [i] on, in order. *)
Fixpoint record_all (saveSuccess : JsVal) (i : nat) (qas : list (string * JsVal))
    (rs : list Response) (rp : Report) : Report :=
  match qas, rs with
  | qa :: qas', r :: rs' => record_all saveSuccess (S i) qas' rs' (record_item saveSuccess i qa r rp)
  | _, _ => rp
  end.

(** The report the executor resolves with, from the report [rp] the items
    left: [t0] and [t1] are the two clock readings. *)
Definition settled_report (t0 t1 : Z) (promises : list (Error + unit)) (rp : Report)
  : Report :=
  match first_rejection promises with
  | None => set_operation_time (t1 - t0) rp
  | Some e => set_success false (set_fatal_error e rp)
  end.

(** The items settling in an arbitrary order: [order] lists the indices in
    the order in which their callbacks run. *)
Definition record_at (saveSuccess : JsVal) (qas : list (string * JsVal))
    (rs : list Response) (k : nat) (rp : Report) : Report :=
  match qas !! k, rs !! k with
  | Some qa, Some r => record_item saveSuccess k qa r rp
  | _, _ => rp
  end.

Definition record_in_order (saveSuccess : JsVal) (qas : list (string * JsVal))
    (rs : list Response) (order : list nat) (rp : Report) : Report :=
  foldl (fun acc k => record_at saveSuccess qas rs k acc) rp order.

(** The driver answered with a result, not with an error. *)
Definition driver_answered (r : Response) : bool :=
  match r with
  | inr _ => true
  | inl _ => false
  end.

(** An item is productive when the driver answers it with at least one row. *)
Definition productive (r : Response) : bool :=
  match r with
  | inr res => negb (no_rows res)
  | inl _ => false
  end.

(** The executor's view of one driver response. *)
Definition query_outcome (r : Response) : Error + QueryResult :=
  match r with
  | inl err => inl err
  | inr res => inr (decorate res)
  end.

(** The statements of a transaction that runs to its commit. *)
Definition tx_statements (queries : list string) (bodies : list JsVal) : list Statement :=
  ("BEGIN", []) :: map item_statement (zip_bodies 0 queries bodies) ++ [("COMMIT", [])].


(** The line [query] prints for the driver's response [r] to the text [q]. *)
Definition query_line (q : string) (r : Response) : Line :=
  match r with
  | inl _ => (colors yellow, "error with query: " +:+ q)
  | inr _ => (colors blue, "success query: " +:+ q)
  end.

(** The console after the lines [lines] were handed to [send_log]. *)
Definition printed {L} (w : World DB L) (lines : list Line) : list Line :=
  if log w then console w ++ lines else console w.


(** A computation of the transaction executor that leaves a settled promise
    as it is and never fulfils one. *)
Definition guarded {A} (m : M TxPromise A) : Prop :=
  forall w,
    (local w <> Pending -> local (fst (m w)) = local w) /\
    (forall v, local (fst (m w)) = Fulfilled v -> local w = Fulfilled v).


(** The lines the items of a batch print, in submission order. *)
Definition batch_lines (qas : list (string * JsVal)) (rs : list Response) : list Line :=
  zip_with (fun qa r => query_line (fst qa) r) qas rs.

(** The summary line of a batch that resolves with the report [r]. *)
Definition summary_line (r : Report) : Line :=
  (colors white,
   "new " +:+ pretty (completed r) +:+ "/" +:+ pretty (completed_of r) +:+ " multi-query").


(** ** Construction: [new PG_Ninja(config, log)] *)

(** [this.#client.connect()], for the driver's [connect]. *)
Definition client_connect {L} (connect : DB -> DB * (Error + unit)) : M L unit :=
  fun w =>
    let (d, r) := connect (db w) in
    (mkWorld (log w) d (wire w) (console w) (reads w) (local w), r).

(** The constructor, with the promise chain [connect().then(..).catch(..)]
    run to its end.  The driver's side is given by [new_client] (what
    [new Client(config)] makes), [connect] and [defaults] (the driver's
    default configuration, [pg/lib/defaults.js]).  An omitted argument
    ([None]) takes its default; [out] is the console so far and [k] the number
    of clock readings so far. *)
Definition constructor {Config : Type} (new_client : Config -> DB)
    (connect : DB -> DB * (Error + unit)) (defaults : Config)
    (config : option Config) (log_arg : option bool) (out : list Line) (k : nat)
  : World DB unit * (Error + unit) :=
  try_catch
    (client_connect connect ;;
     send_log "successfully connected to the database" green)
    (fun err => send_log ("Error connecting to the database: " +:+ message err) red)
    (mkWorld (default true log_arg) (new_client (default defaults config)) [] out k tt).

(** The line construction prints for the outcome [r] of [connect]. *)
Definition connect_line (r : Error + unit) : Line :=
  match r with
  | inl err => (colors red, "Error connecting to the database: " +:+ message err)
  | inr _ => (colors green, "successfully connected to the database")
  end.

(** * Proofs *)

(** ** Transaction coordinator: proofs *)

Lemma final_result_cons (r0 : option QueryResult) (res : QueryResult) (rs : list Response) :
  forallb step_succeeds rs = true ->
  final_result (Some (decorate res)) rs = final_result r0 (inr res :: rs).
Proof.
  unfold final_result. destruct rs as [|r rs]; [reflexivity|].
  intros _. change (last (inr res :: r :: rs)) with (last (r :: rs)).
  destruct (last (r :: rs)) as [[e|res']|] eqn:E; try reflexivity.
  apply last_None in E. discriminate.
Qed.

Lemma has_tag_decorate (res : QueryResult) : has_tag (decorate res) = has_tag res.
Proof. unfold decorate. destruct (is_select res); reflexivity. Qed.

(** *** How the primitives run *)

Lemma bind_inr {L A B} (m : M L A) (k : A -> M L B) (w w1 : World DB L) (a : A) :
  m w = (w1, inr a) -> bind m k w = k a w1.
Proof. intros H. unfold bind. rewrite H. reflexivity. Qed.

Lemma bind_inl {L A B} (m : M L A) (k : A -> M L B) (w w1 : World DB L) (e : Error) :
  m w = (w1, inl e) -> bind m k w = (w1, inl e).
Proof. intros H. unfold bind. rewrite H. reflexivity. Qed.

Lemma try_catch_inr {L A} (m : M L A) (h : Error -> M L A) (w w1 : World DB L) (a : A) :
  m w = (w1, inr a) -> try_catch m h w = (w1, inr a).
Proof. intros H. unfold try_catch. rewrite H. reflexivity. Qed.

Lemma try_catch_inl {L A} (m : M L A) (h : Error -> M L A) (w w1 : World DB L) (e : Error) :
  m w = (w1, inl e) -> try_catch m h w = h e w1.
Proof. intros H. unfold try_catch. rewrite H. reflexivity. Qed.

Lemma advanced_refl {L} (w : World DB L) : advanced w w (db w) [].
Proof. unfold advanced. rewrite app_nil_r. auto. Qed.

Lemma advanced_trans {L} (w w1 w2 : World DB L) (d1 d2 : DB) (xs ys : list Statement) :
  advanced w w1 d1 xs -> advanced w1 w2 d2 ys -> advanced w w2 d2 (xs ++ ys).
Proof.
  unfold advanced. intros (Hd & Hw & Hl & Hg & Hr) (Hd' & Hw' & Hl' & Hg' & Hr').
  rewrite Hw', Hw, <- app_assoc. repeat split; congruence.
Qed.

Lemma advanced_quiet {L} (w w1 w2 : World DB L) (d1 : DB) (xs : list Statement) :
  advanced w w1 d1 xs -> advanced w1 w2 (db w1) [] -> advanced w w2 d1 xs.
Proof.
  unfold advanced. intros (Hd & Hw & Hl & Hg & Hr) (Hd' & Hw' & Hl' & Hg' & Hr').
  rewrite app_nil_r in Hw'. repeat split; congruence.
Qed.

Lemma send_log_eq {L} (msg : string) (c : Color) (w : World DB L) :
  send_log msg c w = (logged msg c w, inr tt).
Proof. unfold send_log, logged. destruct w as [[] ? ? ? ? ?]; reflexivity. Qed.

Lemma send_log_run {L} (msg : string) (c : Color) (w : World DB L) :
  exists w1, send_log msg c w = (w1, inr tt) /\ advanced w w1 (db w) [].
Proof.
  unfold send_log. destruct (log w) eqn:E.
  - eexists. split; [reflexivity|]. unfold advanced; simpl.
    rewrite app_nil_r. auto.
  - exists w. split; [reflexivity|]. apply advanced_refl.
Qed.

Lemma client_call_run {L} (text : string) (args : list JsVal) (w : World DB L) :
  exists w1,
    client_call text args w = (w1, inr (snd (exec (db w) text args))) /\
    advanced w w1 (fst (exec (db w) text args)) [(text, args)].
Proof.
  unfold client_call. destruct (exec (db w) text args) as [d1 r].
  eexists. split; [reflexivity|]. unfold advanced; simpl. auto.
Qed.

Lemma client_await_run {L} (text : string) (w : World DB L) :
  exists w1,
    client_await text w = (w1, snd (exec (db w) text [])) /\
    advanced w w1 (fst (exec (db w) text [])) [(text, [])].
Proof.
  destruct (client_call_run text [] w) as (w1 & Hrun & Hadv).
  exists w1. split; [|exact Hadv].
  unfold client_await. rewrite (bind_inr _ _ _ _ _ Hrun).
  destruct (snd (exec (db w) text [])); reflexivity.
Qed.

Lemma query_run {L} (q : string) (args : list JsVal) (w : World DB L) :
  exists w1,
    query q args w = (w1, query_outcome (snd (exec (db w) q args))) /\
    advanced w w1 (fst (exec (db w) q args)) [(q, args)].
Proof.
  destruct (client_call_run q args w) as (w1 & Hrun & Hadv).
  unfold query. rewrite (bind_inr _ _ _ _ _ Hrun).
  destruct (snd (exec (db w) q args)) as [err|res]; simpl.
  - destruct (send_log_run ("error with query: " +:+ q) yellow w1) as (w2 & Hlog & Hadv2).
    exists w2. rewrite (bind_inr _ _ _ _ _ Hlog). split; [reflexivity|].
    exact (advanced_quiet _ _ _ _ _ Hadv Hadv2).
  - destruct (send_log_run ("success query: " +:+ q) blue w1) as (w2 & Hlog & Hadv2).
    exists w2. rewrite (bind_inr _ _ _ _ _ Hlog). split; [reflexivity|].
    exact (advanced_quiet _ _ _ _ _ Hadv Hadv2).
Qed.

(** While every step succeeds the loop sends the queries in order and
    nothing else, and carries the last result. *)
Lemma tx_loop_succeeds (n : nat) (qas : list (string * JsVal)) :
  forall (r0 : option QueryResult) (w : World DB TxPromise) (d' : DB) (rs : list Response),
    feed (db w) (map item_statement qas) = (d', rs) ->
    forallb step_succeeds rs = true ->
    exists w',
      tx_loop n qas r0 w = (w', inr (final_result r0 rs)) /\
      advanced w w' d' (map item_statement qas).
Proof.
  induction qas as [|qa qas IH]; intros r0 w d' rs Hfeed Hok; simpl in *.
  - inversion Hfeed; subst. exists w. split; [reflexivity|apply advanced_refl].
  - destruct (query_run (fst qa) [snd qa] w) as (w1 & Hq & Hadv).
    destruct (exec (db w) (fst qa) [snd qa]) as [d1 r] eqn:E1.
    destruct (feed d1 (map item_statement qas)) as [d2 rs'] eqn:E2.
    inversion Hfeed; subst; clear Hfeed. simpl in Hok, Hq, Hadv.
    apply andb_true_iff in Hok as [Hr Hrs].
    destruct r as [e|res]; [discriminate|]. simpl in Hr, Hq.
    rewrite (bind_inr _ _ _ _ _ Hq), has_tag_decorate, Hr. cbn [negb].
    unfold bind at 1, ret at 1.
    destruct (IH (Some (decorate res)) w1 d' rs') as (w' & Hrun & Hadv').
    { destruct Hadv as (Hd & _). rewrite Hd. exact E2. }
    { exact Hrs. }
    exists w'. rewrite Hrun, (final_result_cons r0 res rs' Hrs).
    split; [reflexivity|].
    apply (advanced_trans _ _ _ _ _ _ _ Hadv Hadv').
Qed.

Lemma with_local_advanced {L L'} (l0 : L') (w : World DB L) (w' : World DB L')
    (d : DB) (xs : list Statement) :
  advanced (set_local l0 w) w' d xs -> advanced w (set_local (local w) w') d xs.
Proof. unfold advanced; simpl. tauto. Qed.

(** BEGIN answered, every step successful, COMMIT answered: the promise is
    fulfilled with the last result and exactly [tx_statements] went out. *)
Lemma transaction_commits {L} (w : World DB L) (queries : list string) (bodies : list JsVal)
    (d1 d2 d3 : DB) (rb rc : QueryResult) (rs : list Response) :
  exec (db w) "BEGIN" [] = (d1, inr rb) ->
  feed d1 (map item_statement (zip_bodies 0 queries bodies)) = (d2, rs) ->
  forallb step_succeeds rs = true ->
  exec d2 "COMMIT" [] = (d3, inr rc) ->
  exists w',
    transaction queries bodies w = (w', Fulfilled (final_result None rs)) /\
    advanced w w' d3 (tx_statements queries bodies).
Proof.
  intros Hb Hfeed Hok Hc.
  set (w0 := set_local (Pending : TxPromise) w).
  destruct (client_await_run "BEGIN" w0) as (w1 & Hrun1 & Hadv1).
  change (db w0) with (db w) in Hrun1, Hadv1. rewrite Hb in Hrun1, Hadv1.
  simpl in Hrun1, Hadv1.
  destruct (tx_loop_succeeds (length queries) (zip_bodies 0 queries bodies) None w1 d2 rs)
    as (w2 & Hrun2 & Hadv2); [destruct Hadv1 as (-> & _); exact Hfeed|exact Hok|].
  destruct (client_await_run "COMMIT" w2) as (w3 & Hrun3 & Hadv3).
  assert (Hd2 : db w2 = d2) by apply Hadv2.
  rewrite Hd2, Hc in Hrun3, Hadv3. simpl in Hrun3, Hadv3.
  destruct (send_log_run
              ("success transaction of " +:+ pretty (length queries) +:+ " queries")
              blue w3) as (w4 & Hrun4 & Hadv4).
  pose proof (advanced_trans _ _ _ _ _ _ _ Hadv1 Hadv2) as H12.
  pose proof (advanced_trans _ _ _ _ _ _ _ H12 Hadv3) as H13.
  pose proof (advanced_quiet _ _ _ _ _ H13 Hadv4) as H14.
  assert (Hl4 : local w4 = Pending) by (destruct H14 as (_ & _ & Hl & _); exact Hl).
  exists (set_local (local w) w4). split.
  - unfold transaction, async_call, transaction_body, with_local.
    fold w0. unfold bind at 1, spawn, tx_executor.
    erewrite try_catch_inr.
    2:{ rewrite (bind_inr _ _ _ _ _ Hrun1), (bind_inr _ _ _ _ _ Hrun2),
          (bind_inr _ _ _ _ _ Hrun3), (bind_inr _ _ _ _ _ Hrun4).
        unfold resolve_tx, modify_local in *. rewrite Hl4. reflexivity. }
    reflexivity.
  - apply (with_local_advanced (Pending : TxPromise)). fold w0.
    replace (tx_statements queries bodies)
      with (([("BEGIN", [])] ++ map item_statement (zip_bodies 0 queries bodies))
              ++ [("COMMIT", [])]) by reflexivity.
    exact H14.
Qed.

(** *** The wire only grows, a rejection stays *)

Lemma orderly_ret {A} (a : A) : orderly (ret a).
Proof. intros w. simpl. split; [exists []; rewrite app_nil_r|]; auto. Qed.

Lemma orderly_throw {A} (e : Error) : orderly (throw e : M TxPromise A).
Proof. intros w. simpl. split; [exists []; rewrite app_nil_r|]; auto. Qed.

Lemma orderly_bind {A B} (m : M TxPromise A) (k : A -> M TxPromise B) :
  orderly m -> (forall a, orderly (k a)) -> orderly (bind m k).
Proof.
  intros Hm Hk w. destruct (Hm w) as [[sent Hs] Hrej]. unfold bind.
  destruct (m w) as [w1 [e|a]]; simpl in *; [eauto|].
  destruct (Hk a w1) as [[sent' Hs'] Hrej']. split.
  - exists (sent ++ sent'). rewrite Hs', Hs, <- app_assoc. reflexivity.
  - intros e He. apply Hrej', Hrej, He.
Qed.

Lemma orderly_try_catch {A} (m : M TxPromise A) (h : Error -> M TxPromise A) :
  orderly m -> (forall e, orderly (h e)) -> orderly (try_catch m h).
Proof.
  intros Hm Hh w. destruct (Hm w) as [[sent Hs] Hrej]. unfold try_catch.
  destruct (m w) as [w1 [e|a]]; simpl in *; [|eauto].
  destruct (Hh e w1) as [[sent' Hs'] Hrej']. split.
  - exists (sent ++ sent'). rewrite Hs', Hs, <- app_assoc. reflexivity.
  - intros e' He. apply Hrej', Hrej, He.
Qed.

Lemma orderly_client_call (text : string) (args : list JsVal) :
  orderly (client_call text args).
Proof.
  intros w. unfold client_call. destruct (exec (db w) text args). simpl. eauto.
Qed.

Lemma orderly_send_log (msg : string) (c : Color) : orderly (send_log msg c).
Proof.
  intros w. rewrite send_log_eq. simpl. split; [exists []; rewrite app_nil_r|]; auto.
Qed.

Lemma orderly_settle (new : TxPromise) :
  orderly (modify_local (fun p => settle p new)).
Proof.
  intros w. simpl. split; [exists []; rewrite app_nil_r; reflexivity|].
  intros e He. rewrite He. reflexivity.
Qed.

Lemma orderly_await {A} (p : Error + A) : orderly (await p).
Proof. destruct p; [apply orderly_throw|apply orderly_ret]. Qed.

Lemma orderly_client_await (text : string) : orderly (client_await text).
Proof.
  unfold client_await. apply orderly_bind; [apply orderly_client_call|].
  intros r. apply orderly_await.
Qed.

Lemma orderly_query (q : string) (args : list JsVal) : orderly (query q args).
Proof.
  unfold query. apply orderly_bind; [apply orderly_client_call|].
  intros [err|res]; (apply orderly_bind; [apply orderly_send_log|intros _]).
  - apply orderly_throw.
  - apply orderly_ret.
Qed.

Lemma orderly_tx_loop (n : nat) (qas : list (string * JsVal)) :
  forall r, orderly (tx_loop n qas r).
Proof.
  induction qas as [|qa qas IH]; intros r; simpl.
  - apply orderly_ret.
  - apply orderly_bind; [apply orderly_query|intros r'].
    apply orderly_bind; [|intros _; apply IH].
    destruct (has_tag r'); cbn [negb]; [apply orderly_ret|].
    apply orderly_bind; [apply orderly_send_log|intros _].
    apply orderly_bind; [apply orderly_client_await|intros _].
    apply orderly_settle.
Qed.

(** The handler of the executor. *)
Lemma orderly_tx_handler (n : nat) (e : Error) :
  orderly
    (send_log ("fatal error with transaction of " +:+ pretty n +:+ " queries: "
               +:+ message e) red ;;
     client_await "ROLLBACK" ;;
     reject_tx e).
Proof.
  apply orderly_bind; [apply orderly_send_log|intros _].
  apply orderly_bind; [apply orderly_client_await|intros _].
  apply orderly_settle.
Qed.

(** What follows the loop in the executor. *)
Lemma orderly_tx_commit (n : nat) (r : option QueryResult) :
  orderly
    (client_await "COMMIT" ;;
     send_log ("success transaction of " +:+ pretty n +:+ " queries") blue ;;
     resolve_tx r).
Proof.
  apply orderly_bind; [apply orderly_client_await|intros _].
  apply orderly_bind; [apply orderly_send_log|intros _].
  apply orderly_settle.
Qed.

Lemma try_catch_cong {L A} (m m' : M L A) (h : Error -> M L A) (w w' : World DB L) :
  m w = m' w' -> try_catch m h w = try_catch m' h w'.
Proof. intros H. unfold try_catch. rewrite H. reflexivity. Qed.

(** The call in terms of its executor. *)
Lemma transaction_unfold {L} (queries : list string) (bodies : list JsVal) (w : World DB L) :
  transaction queries bodies w =
  let w' := fst (tx_executor queries bodies (set_local Pending w)) in
  (set_local (local w) w', local w').
Proof.
  unfold transaction, async_call, transaction_body, with_local, bind, spawn, get_local.
  destruct (tx_executor queries bodies (set_local Pending w)) as [w' o]. reflexivity.
Qed.

(** X3: Whatever happens, the first statement of the call is BEGIN. *)
Lemma transaction_begins {L} (queries : list string) (bodies : list JsVal) (w : World DB L) :
  exists rest,
    wire (fst (transaction queries bodies w)) = wire w ++ ("BEGIN", []) :: rest.
Proof.
  rewrite transaction_unfold. cbn [fst]. set (w0 := set_local (Pending : TxPromise) w).
  destruct (client_await_run "BEGIN" w0) as (w1 & Hrun & Hadv).
  destruct Hadv as (_ & Hw1 & _). change (wire w0) with (wire w) in Hw1.
  unfold tx_executor.
  destruct (snd (exec (db w0) "BEGIN" [])) as [e|rb].
  - erewrite try_catch_inl; [|apply bind_inl; exact Hrun].
    destruct (orderly_tx_handler (length queries) e w1) as [[sent Hs] _].
    exists sent. cbn [wire set_local]. rewrite Hs, Hw1, <- app_assoc. reflexivity.
  - erewrite try_catch_cong; [|apply bind_inr; exact Hrun].
    match goal with
    | |- context [try_catch ?m ?h w1] =>
        assert (Ho : orderly (try_catch m h))
    end.
    { apply orderly_try_catch; [|intros e; apply orderly_tx_handler].
      apply orderly_bind; [apply orderly_tx_loop|intros r]. apply orderly_tx_commit. }
    destruct (Ho w1) as [[sent Hs] _].
    exists sent. cbn [wire set_local]. rewrite Hs, Hw1, <- app_assoc. reflexivity.
Qed.

Lemma bind_cong {L A B} (m m' : M L A) (k : A -> M L B) (w w' : World DB L) :
  m w = m' w' -> bind m k w = bind m' k w'.
Proof. intros H. unfold bind. rewrite H. reflexivity. Qed.

(** A prefix of successful steps: the loop sends them and goes on with the
    remaining steps. *)
Lemma tx_loop_prefix (n : nat) (pre rest : list (string * JsVal)) :
  forall (r0 : option QueryResult) (w : World DB TxPromise) (d' : DB) (rs : list Response),
    feed (db w) (map item_statement pre) = (d', rs) ->
    forallb step_succeeds rs = true ->
    exists w1,
      advanced w w1 d' (map item_statement pre) /\
      tx_loop n (pre ++ rest) r0 w = tx_loop n rest (final_result r0 rs) w1.
Proof.
  induction pre as [|qa pre IH]; intros r0 w d' rs Hfeed Hok; simpl in *.
  - inversion Hfeed; subst. exists w. split; [apply advanced_refl|reflexivity].
  - destruct (query_run (fst qa) [snd qa] w) as (w1 & Hq & Hadv).
    destruct (exec (db w) (fst qa) [snd qa]) as [d1 r] eqn:E1.
    destruct (feed d1 (map item_statement pre)) as [d2 rs'] eqn:E2.
    inversion Hfeed; subst; clear Hfeed. simpl in Hok, Hq, Hadv.
    apply andb_true_iff in Hok as [Hr Hrs].
    destruct r as [e|res]; [discriminate|]. simpl in Hr, Hq.
    rewrite (bind_inr _ _ _ _ _ Hq), has_tag_decorate, Hr. cbn [negb].
    unfold bind at 1, ret at 1.
    destruct (IH (Some (decorate res)) w1 d' rs') as (w' & Hadv' & Hrun).
    { destruct Hadv as (Hd & _). rewrite Hd. exact E2. }
    { exact Hrs. }
    exists w'. rewrite Hrun, (final_result_cons r0 res rs' Hrs).
    split; [|reflexivity].
    apply (advanced_trans _ _ _ _ _ _ _ Hadv Hadv').
Qed.

(** X4: The first step without a command tag, on a connection that answers the
    ROLLBACK: ROLLBACK goes out right after that step and the call ends
    rejected with "Transaction failed", whatever the loop does afterwards. *)
Lemma transaction_failed_step {L} (w : World DB L) (queries : list string)
    (bodies : list JsVal) (pre post : list (string * JsVal)) (qa : string * JsVal)
    (d1 d2 d3 d4 : DB) (rb res rr : QueryResult) (rs : list Response) :
  exec (db w) "BEGIN" [] = (d1, inr rb) ->
  zip_bodies 0 queries bodies = pre ++ qa :: post ->
  feed d1 (map item_statement pre) = (d2, rs) ->
  forallb step_succeeds rs = true ->
  exec d2 (fst qa) [snd qa] = (d3, inr res) ->
  has_tag res = false ->
  exec d3 "ROLLBACK" [] = (d4, inr rr) ->
  exists w' rest,
    transaction queries bodies w = (w', Rejected (mkError "Transaction failed")) /\
    wire w' = wire w ++ ("BEGIN", []) :: map item_statement pre
                ++ item_statement qa :: ("ROLLBACK", []) :: rest.
Proof.
  intros Hb Hzip Hfeed Hok Hstep Htag Hroll.
  set (n := length queries).
  set (w0 := set_local (Pending : TxPromise) w).
  destruct (client_await_run "BEGIN" w0) as (w1 & Hrun1 & Hadv1).
  change (db w0) with (db w) in Hrun1, Hadv1. rewrite Hb in Hrun1, Hadv1.
  simpl in Hrun1, Hadv1.
  destruct (tx_loop_prefix n pre (qa :: post) None w1 d2 rs) as (wA & HadvA & HrunA);
    [destruct Hadv1 as (Hd & _); rewrite Hd; exact Hfeed|exact Hok|].
  destruct (query_run (fst qa) [snd qa] wA) as (wB & Hq & HadvB).
  assert (HdA : db wA = d2) by apply HadvA.
  rewrite HdA, Hstep in Hq, HadvB. simpl in Hq, HadvB.
  set (wB' := logged ("failed transaction of " +:+ pretty n +:+ " queries") yellow wB).
  destruct (client_await_run "ROLLBACK" wB') as (wC & HrunC & HadvC).
  change (db wB') with (db wB) in HrunC, HadvC.
  assert (HdB : db wB = d3) by apply HadvB.
  rewrite HdB, Hroll in HrunC, HadvC. simpl in HrunC, HadvC.
  set (wD := set_local (settle (local wC) (Rejected (mkError "Transaction failed"))) wC).
  assert (Hloop : tx_loop n (pre ++ qa :: post) None w1
                  = tx_loop n post (Some (decorate res)) wD).
  { rewrite HrunA. simpl. rewrite (bind_inr _ _ _ _ _ Hq), has_tag_decorate, Htag.
    cbn [negb]. erewrite bind_inr; [reflexivity|].
    unfold bind at 1. rewrite send_log_eq. fold wB'.
    rewrite (bind_inr _ _ _ _ _ HrunC). reflexivity. }
  assert (HwD : wire wD = wire w ++ ("BEGIN", []) :: map item_statement pre
                            ++ [item_statement qa; ("ROLLBACK", [])]).
  { destruct Hadv1 as (_ & W1 & _), HadvA as (_ & WA & _), HadvB as (_ & WB & _),
      HadvC as (_ & WC & _).
    change (wire wD) with (wire wC). change (wire wB') with (wire wB) in WC.
    change (wire w0) with (wire w) in W1.
    rewrite WC, WB, WA, W1. rewrite <- !app_assoc. reflexivity. }
  assert (HlD : local wD = Rejected (mkError "Transaction failed")).
  { destruct Hadv1 as (_ & _ & L1 & _), HadvA as (_ & _ & LA & _),
      HadvB as (_ & _ & LB & _), HadvC as (_ & _ & LC & _).
    change (local wB') with (local wB) in LC.
    unfold wD. cbn [local set_local].
    rewrite LC, LB, LA, L1. reflexivity. }
  clearbody wD.
  assert (Ho : orderly
                 (try_catch
                    (r <- tx_loop n post (Some (decorate res)) ;;
                     client_await "COMMIT" ;;
                     send_log ("success transaction of " +:+ pretty n +:+ " queries") blue ;;
                     resolve_tx r)
                    (fun e =>
                       send_log ("fatal error with transaction of " +:+ pretty n
                                 +:+ " queries: " +:+ message e) red ;;
                       client_await "ROLLBACK" ;;
                       reject_tx e))).
  { apply orderly_try_catch; [|intros e; apply orderly_tx_handler].
    apply orderly_bind; [apply orderly_tx_loop|intros r]. apply orderly_tx_commit. }
  destruct (Ho wD) as [[sent Hs] Hrej].
  assert (Hexec : tx_executor queries bodies w0 =
                  try_catch
                    (r <- tx_loop n post (Some (decorate res)) ;;
                     client_await "COMMIT" ;;
                     send_log ("success transaction of " +:+ pretty n +:+ " queries") blue ;;
                     resolve_tx r)
                    (fun e =>
                       send_log ("fatal error with transaction of " +:+ pretty n
                                 +:+ " queries: " +:+ message e) red ;;
                       client_await "ROLLBACK" ;;
                       reject_tx e) wD).
  { unfold tx_executor. fold n. apply try_catch_cong.
    rewrite (bind_inr _ _ _ _ _ Hrun1). apply bind_cong.
    rewrite Hzip. exact Hloop. }
  eexists _, sent. rewrite transaction_unfold.
  change (tx_executor queries bodies (set_local Pending w))
    with (tx_executor queries bodies w0).
  rewrite Hexec. cbn zeta. split.
  - f_equal. apply Hrej. exact HlD.
  - cbn [fst wire set_local]. rewrite Hs, HwD, <- app_assoc. f_equal.
    simpl. f_equal. rewrite <- app_assoc. reflexivity.
Qed.

(** The handler on a pending promise and a connection that answers the
    ROLLBACK: ROLLBACK goes out and the promise is rejected with [e]. *)
Lemma tx_handler_run (n : nat) (e : Error) (w : World DB TxPromise) (d : DB)
    (rr : QueryResult) :
  local w = Pending ->
  exec (db w) "ROLLBACK" [] = (d, inr rr) ->
  exists w',
    (send_log ("fatal error with transaction of " +:+ pretty n +:+ " queries: "
               +:+ message e) red ;;
     client_await "ROLLBACK" ;;
     reject_tx e) w = (w', inr tt) /\
    db w' = d /\ wire w' = wire w ++ [("ROLLBACK", [])] /\ local w' = Rejected e.
Proof.
  intros Hp Hroll.
  set (w1 := logged ("fatal error with transaction of " +:+ pretty n +:+ " queries: "
                     +:+ message e) red w).
  destruct (client_await_run "ROLLBACK" w1) as (w2 & Hrun & Hd & Hw & Hl & _).
  change (db w1) with (db w) in Hrun, Hd. rewrite Hroll in Hrun, Hd. simpl in Hrun, Hd.
  eexists. split.
  - unfold bind at 1. rewrite send_log_eq. fold w1.
    rewrite (bind_inr _ _ _ _ _ Hrun). reflexivity.
  - cbn [db wire local set_local]. rewrite Hl. change (local w1) with (local w).
    rewrite Hp. auto.
Qed.

(** X5: BEGIN fails with [e] and the handler's ROLLBACK is answered: the call
    is rejected with [e], and BEGIN and ROLLBACK are the only statements
    sent. *)
Lemma transaction_begin_throws {L} (w : World DB L) (queries : list string)
    (bodies : list JsVal) (e : Error) (d1 d2 : DB) (rr : QueryResult) :
  exec (db w) "BEGIN" [] = (d1, inl e) ->
  exec d1 "ROLLBACK" [] = (d2, inr rr) ->
  exists w',
    transaction queries bodies w = (w', Rejected e) /\
    wire w' = wire w ++ [("BEGIN", []); ("ROLLBACK", [])].
Proof.
  intros Hb Hroll.
  set (w0 := set_local (Pending : TxPromise) w).
  destruct (client_await_run "BEGIN" w0) as (w1 & Hrun1 & Hd1 & Hw1 & Hl1 & _).
  change (db w0) with (db w) in Hrun1, Hd1. rewrite Hb in Hrun1, Hd1.
  simpl in Hrun1, Hd1.
  destruct (tx_handler_run (length queries) e w1 d2 rr) as (w2 & Hrun2 & Hd2 & Hw2 & Hl2).
  { rewrite Hl1. reflexivity. }
  { rewrite Hd1. exact Hroll. }
  exists (set_local (local w) w2). split.
  - rewrite transaction_unfold.
    change (tx_executor queries bodies (set_local Pending w))
      with (tx_executor queries bodies w0).
    unfold tx_executor. erewrite try_catch_inl; [|apply bind_inl; exact Hrun1].
    rewrite Hrun2. cbn [fst]. rewrite Hl2. reflexivity.
  - cbn [wire set_local]. rewrite Hw2, Hw1, <- app_assoc. reflexivity.
Qed.

(** X6: A step fails with [e] after steps that succeeded, and the handler's
    ROLLBACK is answered: the call is rejected with [e]; ROLLBACK follows the
    failed step at once, and neither a later step nor COMMIT is sent. *)
Lemma transaction_step_throws {L} (w : World DB L) (queries : list string)
    (bodies : list JsVal) (pre post : list (string * JsVal)) (qa : string * JsVal)
    (e : Error) (d1 d2 d3 d4 : DB) (rb rr : QueryResult) (rs : list Response) :
  exec (db w) "BEGIN" [] = (d1, inr rb) ->
  zip_bodies 0 queries bodies = pre ++ qa :: post ->
  feed d1 (map item_statement pre) = (d2, rs) ->
  forallb step_succeeds rs = true ->
  exec d2 (fst qa) [snd qa] = (d3, inl e) ->
  exec d3 "ROLLBACK" [] = (d4, inr rr) ->
  exists w',
    transaction queries bodies w = (w', Rejected e) /\
    wire w' = wire w ++ ("BEGIN", []) :: map item_statement pre
                ++ [item_statement qa; ("ROLLBACK", [])].
Proof.
  intros Hb Hzip Hfeed Hok Hstep Hroll.
  set (n := length queries).
  set (w0 := set_local (Pending : TxPromise) w).
  destruct (client_await_run "BEGIN" w0) as (w1 & Hrun1 & Hadv1).
  change (db w0) with (db w) in Hrun1, Hadv1. rewrite Hb in Hrun1, Hadv1.
  simpl in Hrun1, Hadv1.
  destruct (tx_loop_prefix n pre (qa :: post) None w1 d2 rs) as (wA & HadvA & HrunA);
    [destruct Hadv1 as (Hd & _); rewrite Hd; exact Hfeed|exact Hok|].
  destruct (query_run (fst qa) [snd qa] wA) as (wB & Hq & HadvB).
  assert (HdA : db wA = d2) by apply HadvA.
  rewrite HdA, Hstep in Hq, HadvB. simpl in Hq, HadvB.
  destruct Hadv1 as (_ & W1 & L1 & _), HadvA as (_ & WA & LA & _),
    HadvB as (DB' & WB & LB & _).
  change (wire w0) with (wire w) in W1. change (local w0) with (@Pending (option QueryResult)) in L1.
  destruct (tx_handler_run n e wB d4 rr) as (w2 & Hrun2 & Hd2 & Hw2 & Hl2).
  { rewrite LB, LA, L1. reflexivity. }
  { rewrite DB'. exact Hroll. }
  exists (set_local (local w) w2). split.
  - rewrite transaction_unfold.
    change (tx_executor queries bodies (set_local Pending w))
      with (tx_executor queries bodies w0).
    unfold tx_executor. fold n. erewrite try_catch_inl.
    2:{ rewrite (bind_inr _ _ _ _ _ Hrun1), Hzip. apply bind_inl.
        rewrite HrunA. simpl. apply bind_inl. exact Hq. }
    rewrite Hrun2. cbn [fst]. rewrite Hl2. reflexivity.
  - cbn [wire set_local]. rewrite Hw2, WB, WA, W1, <- !app_assoc. reflexivity.
Qed.

(** X7: COMMIT fails with [e] after every step succeeded, and the handler's
    ROLLBACK is answered: the call is rejected with [e] and ROLLBACK is the
    last statement sent. *)
Lemma transaction_commit_throws {L} (w : World DB L) (queries : list string)
    (bodies : list JsVal) (e : Error) (d1 d2 d3 d4 : DB) (rb rr : QueryResult)
    (rs : list Response) :
  exec (db w) "BEGIN" [] = (d1, inr rb) ->
  feed d1 (map item_statement (zip_bodies 0 queries bodies)) = (d2, rs) ->
  forallb step_succeeds rs = true ->
  exec d2 "COMMIT" [] = (d3, inl e) ->
  exec d3 "ROLLBACK" [] = (d4, inr rr) ->
  exists w',
    transaction queries bodies w = (w', Rejected e) /\
    wire w' = wire w ++ ("BEGIN", []) :: map item_statement (zip_bodies 0 queries bodies)
                ++ [("COMMIT", []); ("ROLLBACK", [])].
Proof.
  intros Hb Hfeed Hok Hc Hroll.
  set (n := length queries).
  set (w0 := set_local (Pending : TxPromise) w).
  destruct (client_await_run "BEGIN" w0) as (w1 & Hrun1 & Hadv1).
  change (db w0) with (db w) in Hrun1, Hadv1. rewrite Hb in Hrun1, Hadv1.
  simpl in Hrun1, Hadv1.
  destruct (tx_loop_succeeds n (zip_bodies 0 queries bodies) None w1 d2 rs)
    as (w2 & Hrun2 & Hadv2); [destruct Hadv1 as (Hd & _); rewrite Hd; exact Hfeed|exact Hok|].
  destruct (client_await_run "COMMIT" w2) as (w3 & Hrun3 & Hadv3).
  assert (Hd2 : db w2 = d2) by apply Hadv2.
  rewrite Hd2, Hc in Hrun3, Hadv3. simpl in Hrun3, Hadv3.
  destruct Hadv1 as (_ & W1 & L1 & _), Hadv2 as (_ & W2 & L2 & _),
    Hadv3 as (D3 & W3 & L3 & _).
  change (wire w0) with (wire w) in W1. change (local w0) with (@Pending (option QueryResult)) in L1.
  destruct (tx_handler_run n e w3 d4 rr) as (w4 & Hrun4 & Hd4 & Hw4 & Hl4).
  { rewrite L3, L2, L1. reflexivity. }
  { rewrite D3. exact Hroll. }
  exists (set_local (local w) w4). split.
  - rewrite transaction_unfold.
    change (tx_executor queries bodies (set_local Pending w))
      with (tx_executor queries bodies w0).
    unfold tx_executor. fold n. erewrite try_catch_inl.
    2:{ rewrite (bind_inr _ _ _ _ _ Hrun1), (bind_inr _ _ _ _ _ Hrun2).
        apply bind_inl. exact Hrun3. }
    rewrite Hrun4. cbn [fst]. rewrite Hl4. reflexivity.
  - cbn [wire set_local]. rewrite Hw4, W3, W2, W1, <- !app_assoc. reflexivity.
Qed.

Lemma feed_length (stmts : list Statement) (d d' : DB) (rs : list Response) :
  feed d stmts = (d', rs) -> length rs = length stmts.
Proof.
  revert d d' rs. induction stmts as [|st stmts IH]; intros d d' rs H; simpl in H.
  - inversion H. reflexivity.
  - destruct (exec d (fst st) (snd st)) as [d1 r].
    destruct (feed d1 stmts) as [d2 rs'] eqn:E. inversion H; subst. simpl.
    f_equal. exact (IH _ _ _ E).
Qed.

Lemma zip_bodies_length (queries : list string) (bodies : list JsVal) (i : nat) :
  length (zip_bodies i queries bodies) = length queries.
Proof.
  revert i. induction queries as [|q queries IH]; intros i; simpl; [reflexivity|].
  f_equal. apply IH.
Qed.

Lemma last_succeeds (rs : list Response) :
  rs <> [] -> forallb step_succeeds rs = true ->
  exists res, last rs = Some (inr res).
Proof.
  intros Hne Hok. destruct (last rs) as [[e|res]|] eqn:E.
  - apply last_Some in E as [pre ->]. rewrite forallb_app in Hok. simpl in Hok.
    rewrite andb_false_r in Hok. discriminate.
  - eauto.
  - apply last_None in E. contradiction.
Qed.

(** C6: when BEGIN is answered, every step's result carries a command tag
    and COMMIT is answered, the coordinator sends BEGIN, the queries in order
    and COMMIT (COMMIT last), and the call resolves with the result of the
    final query of the list. *)
Theorem transaction_all_steps_succeed {L} (w : World DB L) (queries : list string)
    (bodies : list JsVal) (d1 d2 d3 : DB) (rb rc : QueryResult) (rs : list Response) :
  exec (db w) "BEGIN" [] = (d1, inr rb) ->
  feed d1 (map item_statement (zip_bodies 0 queries bodies)) = (d2, rs) ->
  forallb step_succeeds rs = true ->
  exec d2 "COMMIT" [] = (d3, inr rc) ->
  exists w',
    transaction queries bodies w = (w', Fulfilled (final_result None rs)) /\
    wire w' = wire w ++ tx_statements queries bodies /\
    last (wire w') = Some ("COMMIT", []) /\
    db w' = d3 /\
    (queries <> [] ->
     exists res, last rs = Some (inr res) /\ final_result None rs = Some (decorate res)).
Proof.
  intros Hb Hfeed Hok Hc.
  destruct (transaction_commits w queries bodies _ _ _ _ _ _ Hb Hfeed Hok Hc)
    as (w' & Hrun & Hd & Hw & _).
  exists w'. repeat split; auto.
  - rewrite Hw. unfold tx_statements.
    rewrite app_comm_cons, app_assoc. apply last_snoc.
  - intros Hne.
    destruct (last_succeeds rs) as [res Hres]; [|exact Hok|].
    + intros ->. apply feed_length in Hfeed.
      rewrite length_map, zip_bodies_length in Hfeed.
      destruct queries; [contradiction|discriminate].
    + exists res. split; [exact Hres|]. unfold final_result. rewrite Hres. reflexivity.
Qed.

(** C9: on the empty list of queries, with BEGIN and COMMIT answered by the
    driver, the call sends BEGIN and COMMIT and resolves with [undefined]. *)
Theorem transaction_of_no_queries {L} (w : World DB L) (bodies : list JsVal)
    (d1 d2 : DB) (rb rc : QueryResult) :
  exec (db w) "BEGIN" [] = (d1, inr rb) ->
  exec d1 "COMMIT" [] = (d2, inr rc) ->
  exists w',
    transaction [] bodies w = (w', Fulfilled None) /\
    wire w' = wire w ++ [("BEGIN", []); ("COMMIT", [])] /\
    db w' = d2.
Proof.
  intros Hb Hc.
  destruct (transaction_commits w [] bodies d1 d1 d2 rb rc [] Hb eq_refl eq_refl Hc)
    as (w' & Hrun & Hd & Hw & _).
  exists w'. auto.
Qed.

(** ** Batch runner: proofs *)

Lemma advanced_moved {L} (w w1 : World DB L) (d1 : DB) (xs : list Statement) :
  advanced w w1 d1 xs -> moved w w1 d1 xs.
Proof. unfold advanced, moved. tauto. Qed.

Lemma moved_trans {L1 L2 L3} (w : World DB L1) (w1 : World DB L2) (w2 : World DB L3)
    (d1 d2 : DB) (xs ys : list Statement) :
  moved w w1 d1 xs -> moved w1 w2 d2 ys -> moved w w2 d2 (xs ++ ys).
Proof.
  unfold moved. intros (Hd & Hw & Hg) (Hd' & Hw' & Hg').
  rewrite Hw', Hw, <- app_assoc. repeat split; congruence.
Qed.

Lemma no_rows_decorate (res : QueryResult) : no_rows (decorate res) = no_rows res.
Proof. unfold decorate. destruct (is_select res); reflexivity. Qed.

Lemma rows_decorate (res : QueryResult) : rows (decorate res) = rows res.
Proof. unfold decorate. destruct (is_select res); reflexivity. Qed.

(** An item never throws; it sends its statement and records the answer. *)
Lemma batch_item_run (ss : JsVal) (i : nat) (qa : string * JsVal) (w : World DB BatchLocal) :
  exists w1,
    batch_item ss i qa w = (w1, inr tt) /\
    moved w w1 (fst (exec (db w) (fst qa) [snd qa])) [item_statement qa] /\
    reads w1 = reads w /\
    local w1 = mkBatchLocal
                 (record_item ss i qa (snd (exec (db w) (fst qa) [snd qa])) (resp (local w)))
                 (promise (local w)).
Proof.
  destruct (query_run (fst qa) [snd qa] w) as (w1 & Hq & Hadv).
  pose proof (advanced_moved _ _ _ _ Hadv) as Hmv.
  destruct Hadv as (Hd & Hw & Hl & Hg & Hr).
  destruct (snd (exec (db w) (fst qa) [snd qa])) as [err|res]; simpl in Hq.
  - eexists. split.
    + unfold batch_item. erewrite try_catch_inl; [|erewrite bind_inl; [reflexivity|exact Hq]].
      reflexivity.
    + simpl. rewrite Hl. repeat split; auto.
  - unfold batch_item, record_item.
    destruct (no_rows res) eqn:Hn.
    + eexists. split.
      * erewrite try_catch_inr; [reflexivity|].
        rewrite (bind_inr _ _ _ _ _ Hq), no_rows_decorate, Hn. reflexivity.
      * simpl. rewrite Hl. repeat split; auto.
    + destruct (truthy ss) eqn:Hs.
      * eexists. split.
        -- erewrite try_catch_inr; [reflexivity|].
           rewrite (bind_inr _ _ _ _ _ Hq), no_rows_decorate, Hn. reflexivity.
        -- simpl. rewrite Hl, rows_decorate. repeat split; auto.
      * eexists. split.
        -- erewrite try_catch_inr; [reflexivity|].
           rewrite (bind_inr _ _ _ _ _ Hq), no_rows_decorate, Hn. reflexivity.
        -- simpl. rewrite Hl. repeat split; auto.
Qed.

Lemma spawn_items_run (ss : JsVal) (qas : list (string * JsVal)) :
  forall (i : nat) (w : World DB BatchLocal) (d' : DB) (rs : list Response),
    feed (db w) (map item_statement qas) = (d', rs) ->
    exists w',
      spawn_items ss i qas w = (w', inr (map (fun _ => inr tt) qas)) /\
      moved w w' d' (map item_statement qas) /\
      reads w' = reads w /\
      local w' = mkBatchLocal (record_all ss i qas rs (resp (local w))) (promise (local w)).
Proof.
  induction qas as [|qa qas IH]; intros i w d' rs Hfeed; simpl in Hfeed.
  - inversion Hfeed; subst. exists w. simpl. repeat split; auto.
    + rewrite app_nil_r. reflexivity.
    + destruct (local w); reflexivity.
  - destruct (batch_item_run ss i qa w) as (w1 & Hrun & Hmv & Hr & Hl).
    change (exec (db w) (fst (item_statement qa)) (snd (item_statement qa)))
      with (exec (db w) (fst qa) [snd qa]) in Hfeed.
    destruct (exec (db w) (fst qa) [snd qa]) as [d1 r].
    destruct (feed d1 (map item_statement qas)) as [d2 rs'] eqn:E.
    inversion Hfeed; subst; clear Hfeed. simpl in Hmv, Hl.
    destruct (IH (S i) w1 d' rs') as (w' & Hrun' & Hmv' & Hr' & Hl').
    { destruct Hmv as (Hd & _). rewrite Hd. exact E. }
    exists w'. split; [|split; [|split]].
    + simpl. unfold bind at 1, spawn at 1. rewrite Hrun.
      rewrite (bind_inr _ _ _ _ _ Hrun'). reflexivity.
    + exact (moved_trans _ _ _ _ _ _ _ Hmv Hmv').
    + congruence.
    + rewrite Hl', Hl. reflexivity.
Qed.

Lemma first_rejection_fulfilled {A} (l : list A) :
  first_rejection (map (fun _ => inr tt) l) = None.
Proof. induction l; simpl; auto. Qed.

(** Whatever the promises hold, the executor does not throw and resolves. *)
Lemma batch_executor_run (n : nat) (promises : list (Error + unit)) (w : World DB BatchLocal) :
  exists w',
    batch_executor n promises w = (w', inr tt) /\
    moved w w' (db w) [] /\
    local w' =
      let rp := settled_report (clock (reads w)) (clock (S (reads w))) promises
                  (resp (local w)) in
      mkBatchLocal rp (settle (promise (local w)) (Fulfilled rp)).
Proof.
  unfold batch_executor, settled_report, await_all, try_catch, bind, date_now,
    modify_resp, modify_local, get_local, resolve_resp, throw, ret.
  destruct (first_rejection promises) as [e|]; rewrite send_log_eq;
    (eexists; split; [reflexivity|]); split;
    solve [reflexivity | unfold moved; simpl; rewrite app_nil_r; auto].
Qed.

Lemma js_index_truthy (v : JsVal) (i : nat) :
  truthy v = true -> exists x, js_index v i = inr x.
Proof. destruct v; simpl; intros H; try discriminate; eauto. Qed.

Lemma override_params_truthy (params : JsVal) (qrs : list (string * JsVal)) :
  truthy params = true ->
  forall i, exists l, override_params i qrs params = inr l /\ length l = length qrs.
Proof.
  intros Ht. induction qrs as [|x qrs IH]; intros i; simpl.
  - exists []. auto.
  - destruct (js_index_truthy params i Ht) as [v ->].
    destruct (IH (S i)) as (l & -> & Hlen).
    eexists. split; [reflexivity|]. simpl. congruence.
Qed.

(** The map over [qrs] never throws: [params] is only indexed when it is
    truthy. *)
Lemma batch_queryArgs_total (qrs : list (string * JsVal)) (params : JsVal) :
  exists l, batch_queryArgs qrs params = inr l /\ length l = length qrs.
Proof.
  unfold batch_queryArgs. destruct (truthy params) eqn:Ht.
  - apply override_params_truthy; exact Ht.
  - eauto.
Qed.

(** The whole call: the statements reach the driver in submission order and
    the promise is fulfilled with the report the items built. *)
Lemma multiquery_run {L} (qrs : list (string * JsVal)) (args : list JsVal) (w : World DB L)
    (queryArgs : list (string * JsVal)) (d' : DB) (rs : list Response) :
  batch_queryArgs qrs (args_first args) = inr queryArgs ->
  feed (db w) (map item_statement queryArgs) = (d', rs) ->
  exists w',
    multiquery qrs args w =
      (w', Fulfilled
             (set_operation_time (clock (S (reads w)) - clock (reads w))
                (record_all (nullish (args_last args) (JBool false)) 0 queryArgs rs
                   (initial_resp (length qrs))))) /\
    moved w w' d' (map item_statement queryArgs) /\
    local w' = local w.
Proof.
  intros Hqa Hfeed.
  set (ss := nullish (args_last args) (JBool false)).
  set (w0 := set_local (mkBatchLocal (initial_resp (length qrs)) Pending) w).
  destruct (spawn_items_run ss queryArgs 0 w0 d' rs Hfeed) as (w1 & Hrun1 & Hmv1 & Hr1 & Hl1).
  destruct (batch_executor_run (length qrs) (map (fun _ => inr tt) queryArgs) w1)
    as (w2 & Hrun2 & Hmv2 & Hl2).
  exists (set_local (local w) w2). split; [|split].
  - unfold multiquery, async_call, multiquery_body. rewrite Hqa.
    unfold bind at 1, await at 1, ret at 1, with_local. fold ss w0.
    rewrite (bind_inr _ _ _ _ _ Hrun1). unfold bind at 1, spawn at 1. rewrite Hrun2.
    unfold bind, get_local, ret. rewrite Hl2, Hl1, Hr1.
    unfold settled_report. rewrite first_rejection_fulfilled. reflexivity.
  - pose proof (moved_trans _ _ _ _ _ _ _ Hmv1 Hmv2) as H. rewrite app_nil_r in H.
    unfold moved in *. simpl in *. destruct Hmv1 as (Hd1 & _).
    rewrite Hd1 in H. exact H.
  - reflexivity.
Qed.

(** *** What the items leave in the report *)

Lemma record_item_completed (ss : JsVal) (i : nat) (qa : string * JsVal) (r : Response)
    (rp : Report) :
  completed (record_item ss i qa r rp) =
  if productive r then S (completed rp) else completed rp.
Proof.
  destruct r as [e|res]; simpl; [reflexivity|].
  destruct (no_rows res); simpl; [reflexivity|]. destruct (truthy ss); reflexivity.
Qed.

Lemma record_item_failed (ss : JsVal) (i : nat) (qa : string * JsVal) (r : Response)
    (rp : Report) :
  failed_query_list (record_item ss i qa r rp) =
  if productive r then failed_query_list rp else <[i := qa]> (failed_query_list rp).
Proof.
  destruct r as [e|res]; simpl; [reflexivity|].
  destruct (no_rows res); simpl; [reflexivity|]. destruct (truthy ss); reflexivity.
Qed.

Lemma record_item_error (ss : JsVal) (i : nat) (qa : string * JsVal) (r : Response)
    (rp : Report) :
  error_list (record_item ss i qa r rp) =
  match r with
  | inl e => <[i := e]> (error_list rp)
  | inr res =>
      if no_rows res then <[i := mkError "Query returned no rows"]> (error_list rp)
      else error_list rp
  end.
Proof.
  destruct r as [e|res]; simpl; [reflexivity|].
  destruct (no_rows res); simpl; [reflexivity|]. destruct (truthy ss); reflexivity.
Qed.

Lemma record_item_rows (ss : JsVal) (i : nat) (qa : string * JsVal) (r : Response)
    (rp : Report) :
  success_query_list (record_item ss i qa r rp) =
  match r with
  | inl _ => success_query_list rp
  | inr res =>
      if negb (no_rows res) && truthy ss
      then <[i := default [] (rows res)]> (success_query_list rp)
      else success_query_list rp
  end.
Proof.
  destruct r as [e|res]; simpl; [reflexivity|].
  destruct (no_rows res); simpl; [reflexivity|]. destruct (truthy ss); reflexivity.
Qed.

Lemma record_item_rest (ss : JsVal) (i : nat) (qa : string * JsVal) (r : Response)
    (rp : Report) :
  completed_of (record_item ss i qa r rp) = completed_of rp /\
  fatal_error (record_item ss i qa r rp) = fatal_error rp /\
  operation_time (record_item ss i qa r rp) = operation_time rp /\
  success (record_item ss i qa r rp) =
    match r with inl _ => false | inr _ => success rp end.
Proof.
  destruct r as [e|res]; simpl; [auto|].
  destruct (no_rows res); simpl; [auto|]. destruct (truthy ss); auto.
Qed.

(** Items from index [i] on leave the entries below [i] alone. *)
Lemma record_all_below (ss : JsVal) (qas : list (string * JsVal)) :
  forall (rs : list Response) (i : nat) (rp : Report) (j : nat),
    j < i ->
    failed_query_list (record_all ss i qas rs rp) !! j = failed_query_list rp !! j /\
    error_list (record_all ss i qas rs rp) !! j = error_list rp !! j /\
    success_query_list (record_all ss i qas rs rp) !! j = success_query_list rp !! j.
Proof.
  induction qas as [|qa qas IH]; intros rs i rp j Hj; simpl; [auto|].
  destruct rs as [|r rs]; [auto|].
  destruct (IH rs (S i) (record_item ss i qa r rp) j) as (Hf & He & Hs); [lia|].
  rewrite Hf, He, Hs, record_item_failed, record_item_error, record_item_rows.
  assert (i <> j) by lia.
  repeat split.
  - destruct (productive r); [reflexivity|]. apply lookup_insert_ne; assumption.
  - destruct r as [e|res]; [apply lookup_insert_ne; assumption|].
    destruct (no_rows res); [apply lookup_insert_ne; assumption|reflexivity].
  - destruct r as [e|res]; [reflexivity|].
    destruct (negb (no_rows res) && truthy ss); [apply lookup_insert_ne; assumption|].
    reflexivity.
Qed.

(** The entries of item [k] of the items from index [i] on. *)
Lemma record_all_at (ss : JsVal) (qas : list (string * JsVal)) :
  forall (rs : list Response) (i : nat) (rp : Report) (k : nat),
    failed_query_list (record_all ss i qas rs rp) !! (i + k) =
      match qas !! k, rs !! k with
      | Some qa, Some r =>
          if productive r then failed_query_list rp !! (i + k) else Some qa
      | _, _ => failed_query_list rp !! (i + k)
      end /\
    error_list (record_all ss i qas rs rp) !! (i + k) =
      match qas !! k, rs !! k with
      | Some _, Some (inl e) => Some e
      | Some _, Some (inr res) =>
          if no_rows res then Some (mkError "Query returned no rows")
          else error_list rp !! (i + k)
      | _, _ => error_list rp !! (i + k)
      end /\
    success_query_list (record_all ss i qas rs rp) !! (i + k) =
      match qas !! k, rs !! k with
      | Some _, Some (inr res) =>
          if negb (no_rows res) && truthy ss then Some (default [] (rows res))
          else success_query_list rp !! (i + k)
      | _, _ => success_query_list rp !! (i + k)
      end.
Proof.
  induction qas as [|qa qas IH]; intros rs i rp k; simpl.
  - auto.
  - destruct rs as [|r rs].
    + destruct ((qa :: qas) !! k); auto.
    + destruct k as [|k]; simpl.
      * rewrite Nat.add_0_r.
        destruct (record_all_below ss qas rs (S i) (record_item ss i qa r rp) i)
          as (Hf & He & Hs); [lia|].
        rewrite Hf, He, Hs, record_item_failed, record_item_error, record_item_rows.
        repeat split.
        -- destruct (productive r); [reflexivity|]. apply lookup_insert_eq.
        -- destruct r as [e|res]; [apply lookup_insert_eq|].
           destruct (no_rows res); [apply lookup_insert_eq|reflexivity].
        -- destruct r as [e|res]; [reflexivity|].
           destruct (negb (no_rows res) && truthy ss); [apply lookup_insert_eq|].
           reflexivity.
      * replace (i + S k) with (S i + k) by lia.
        destruct (IH rs (S i) (record_item ss i qa r rp) k) as (Hf & He & Hs).
        rewrite Hf, He, Hs, record_item_failed, record_item_error, record_item_rows.
        assert (Hne : i <> S i + k) by lia.
        assert (Hfail : (if productive r then failed_query_list rp
                         else <[i := qa]> (failed_query_list rp)) !! (S i + k)
                        = failed_query_list rp !! (S i + k)).
        { destruct (productive r); [reflexivity|]. apply lookup_insert_ne, Hne. }
        assert (Herr : match r with
                       | inl e => <[i := e]> (error_list rp)
                       | inr res =>
                           if no_rows res
                           then <[i := mkError "Query returned no rows"]> (error_list rp)
                           else error_list rp
                       end !! (S i + k) = error_list rp !! (S i + k)).
        { destruct r as [e|res]; [apply lookup_insert_ne, Hne|].
          destruct (no_rows res); [apply lookup_insert_ne, Hne|reflexivity]. }
        assert (Hrow : match r with
                       | inl _ => success_query_list rp
                       | inr res =>
                           if negb (no_rows res) && truthy ss
                           then <[i := default [] (rows res)]> (success_query_list rp)
                           else success_query_list rp
                       end !! (S i + k) = success_query_list rp !! (S i + k)).
        { destruct r as [e|res]; [reflexivity|].
          destruct (negb (no_rows res) && truthy ss); [apply lookup_insert_ne, Hne|].
          reflexivity. }
        rewrite Hfail, Herr, Hrow. auto.
Qed.

(** Every item either counts as completed or enters the failed list. *)
Lemma record_all_counts (ss : JsVal) (qas : list (string * JsVal)) :
  forall (rs : list Response) (i : nat) (rp : Report),
    length rs = length qas ->
    (forall j, i <= j -> failed_query_list rp !! j = None) ->
    completed (record_all ss i qas rs rp) + size (failed_query_list (record_all ss i qas rs rp))
    = completed rp + size (failed_query_list rp) + length qas.
Proof.
  induction qas as [|qa qas IH]; intros rs i rp Hlen Hfree; simpl.
  - lia.
  - destruct rs as [|r rs]; [discriminate|]. simpl in Hlen.
    rewrite IH; [|lia|].
    + rewrite record_item_completed, record_item_failed.
      destruct (productive r); [lia|].
      rewrite map_size_insert_None; [lia|]. apply Hfree. lia.
    + intros j Hj. rewrite record_item_failed.
      destruct (productive r); [apply Hfree; lia|].
      rewrite lookup_insert_ne; [apply Hfree; lia|lia].
Qed.

Lemma record_all_completed (ss : JsVal) (qas : list (string * JsVal)) :
  forall (rs : list Response) (i : nat) (rp : Report),
    length rs = length qas ->
    completed (record_all ss i qas rs rp) = completed rp + length (List.filter productive rs).
Proof.
  induction qas as [|qa qas IH]; intros rs i rp Hlen; simpl.
  - destruct rs; [simpl; lia|discriminate].
  - destruct rs as [|r rs]; [discriminate|]. simpl in Hlen.
    rewrite IH; [|lia]. rewrite record_item_completed. simpl.
    destruct (productive r); simpl; lia.
Qed.

Lemma record_all_rest (ss : JsVal) (qas : list (string * JsVal)) :
  forall (rs : list Response) (i : nat) (rp : Report),
    completed_of (record_all ss i qas rs rp) = completed_of rp /\
    fatal_error (record_all ss i qas rs rp) = fatal_error rp /\
    operation_time (record_all ss i qas rs rp) = operation_time rp.
Proof.
  induction qas as [|qa qas IH]; intros rs i rp; simpl; [auto|].
  destruct rs as [|r rs]; [auto|].
  destruct (IH rs (S i) (record_item ss i qa r rp)) as (H1 & H2 & H3).
  destruct (record_item_rest ss i qa r rp) as (H1' & H2' & H3' & _).
  repeat split; congruence.
Qed.

Lemma record_all_success (ss : JsVal) (qas : list (string * JsVal)) :
  forall (rs : list Response) (i : nat) (rp : Report),
    length rs = length qas ->
    success (record_all ss i qas rs rp) = success rp && forallb driver_answered rs.
Proof.
  induction qas as [|qa qas IH]; intros rs i rp Hlen; simpl.
  - destruct rs; [simpl; rewrite andb_true_r; reflexivity|discriminate].
  - destruct rs as [|r rs]; [discriminate|]. simpl in Hlen.
    rewrite IH; [|lia]. destruct (record_item_rest ss i qa r rp) as (_ & _ & _ & ->).
    destruct r; simpl; [rewrite andb_false_r|]; reflexivity.
Qed.

Lemma batch_resolves {L} (qrs : list (string * JsVal)) (args : list JsVal) (w : World DB L) :
  exists w' r, multiquery qrs args w = (w', Fulfilled r).
Proof.
  destruct (batch_queryArgs_total qrs (args_first args)) as (qas & Hqa & Hlen).
  destruct (feed (db w) (map item_statement qas)) as [d' rs] eqn:Hfeed.
  destruct (multiquery_run qrs args w qas d' rs Hqa Hfeed) as (w' & Hrun & _).
  eauto.
Qed.

(** C3: every call resolves with a report in which the completed count and
    the number of entries of the failed list add up to the number of queries
    submitted. *)
Theorem batch_counts_add_up {L} (qrs : list (string * JsVal)) (args : list JsVal)
    (w : World DB L) :
  exists w' r,
    multiquery qrs args w = (w', Fulfilled r) /\
    completed r + size (failed_query_list r) = completed_of r /\
    completed_of r = length qrs.
Proof.
  destruct (batch_queryArgs_total qrs (args_first args)) as (qas & Hqa & Hlen).
  destruct (feed (db w) (map item_statement qas)) as [d' rs] eqn:Hfeed.
  destruct (multiquery_run qrs args w qas d' rs Hqa Hfeed) as (w' & Hrun & _).
  pose proof (feed_length _ _ _ _ Hfeed) as Hrs. rewrite length_map in Hrs.
  eexists _, _. split; [exact Hrun|]. simpl.
  destruct (record_all_rest (nullish (args_last args) (JBool false)) qas rs 0
              (initial_resp (length qrs))) as (Hof & _).
  rewrite Hof. simpl. split; [|reflexivity].
  rewrite record_all_counts; [|exact Hrs|intros j _; apply lookup_empty].
  simpl. rewrite map_size_empty. lia.
Qed.

(** X16: The success flag of the report says exactly that no item threw; an item
    answered without rows does not clear it. *)
Lemma batch_success_flag {L} (qrs : list (string * JsVal)) (args : list JsVal)
    (w : World DB L) (queryArgs : list (string * JsVal)) (d' : DB) (rs : list Response) :
  batch_queryArgs qrs (args_first args) = inr queryArgs ->
  feed (db w) (map item_statement queryArgs) = (d', rs) ->
  exists w' r,
    multiquery qrs args w = (w', Fulfilled r) /\
    fatal_error r = None /\
    success r = forallb driver_answered rs.
Proof.
  intros Hqa Hfeed.
  destruct (multiquery_run qrs args w queryArgs d' rs Hqa Hfeed) as (w' & Hrun & _).
  pose proof (feed_length _ _ _ _ Hfeed) as Hrs. rewrite length_map in Hrs.
  eexists _, _. split; [exact Hrun|]. simpl.
  destruct (record_all_rest (nullish (args_last args) (JBool false)) queryArgs rs 0
              (initial_resp (length qrs))) as (_ & Hfe & _).
  rewrite Hfe, record_all_success by exact Hrs. split; reflexivity.
Qed.

(** X17: A cleared flag comes with an entry in the error list: the item that
    threw left its error there. *)
Lemma batch_flag_cleared_with_error {L} (qrs : list (string * JsVal)) (args : list JsVal)
    (w : World DB L) (w' : World DB L) (r : Report) :
  multiquery qrs args w = (w', Fulfilled r) ->
  success r = false ->
  exists i e, error_list r !! i = Some e.
Proof.
  intros Hrun Hflag.
  destruct (batch_queryArgs_total qrs (args_first args)) as (qas & Hqa & Hlen).
  destruct (feed (db w) (map item_statement qas)) as [d' rs] eqn:Hfeed.
  destruct (multiquery_run qrs args w qas d' rs Hqa Hfeed) as (w2 & Hrun2 & _).
  rewrite Hrun in Hrun2. injection Hrun2 as _ ->.
  pose proof (feed_length _ _ _ _ Hfeed) as Hrs. rewrite length_map in Hrs.
  simpl in Hflag. rewrite record_all_success in Hflag by exact Hrs. simpl in Hflag.
  assert (Hex : exists i e, rs !! i = Some (inl e)).
  { clear -Hflag. induction rs as [|[e|res] rs IH]; simpl in Hflag; [discriminate| |].
    - exists 0, e. reflexivity.
    - destruct (IH Hflag) as (i & e & Hi). exists (S i), e. exact Hi. }
  destruct Hex as (i & e & Hi). exists i, e. simpl.
  destruct (record_all_at (nullish (args_last args) (JBool false)) qas rs 0
              (initial_resp (length qrs)) i) as (_ & He & _).
  change (0 + i) with i in He. rewrite He, Hi.
  destruct (lookup_lt_is_Some_2 qas i) as [qa ->]; [|reflexivity].
  rewrite <- Hrs. apply lookup_lt_Some in Hi. exact Hi.
Qed.

(** C5: the call is never rejected and never left pending: for every
    request it is fulfilled with the report.  And whatever exception reaches
    the executor's handler, the handler stores it as the fatal error, clears
    the success flag and resolves with the report. *)
Theorem batch_never_rejects {L} (qrs : list (string * JsVal)) (args : list JsVal)
    (w : World DB L) :
  (exists w' r, multiquery qrs args w = (w', Fulfilled r)) /\
  (forall (n : nat) (promises : list (Error + unit)) (rp : Report),
     exists w' r,
       batch_executor n promises (set_local (mkBatchLocal rp Pending) w) = (w', inr tt) /\
       local w' = mkBatchLocal r (Fulfilled r) /\
       fatal_error r =
         match first_rejection promises with
         | Some e => Some e
         | None => fatal_error rp
         end /\
       success r =
         match first_rejection promises with
         | Some _ => false
         | None => success rp
         end).
Proof.
  split.
  - destruct (batch_resolves qrs args w) as (w' & r & H). eauto.
  - intros n promises rp.
    destruct (batch_executor_run n promises (set_local (mkBatchLocal rp Pending) w))
      as (w' & Hrun & _ & Hl).
    eexists _, _. split; [exact Hrun|]. split; [exact Hl|].
    unfold settled_report. simpl. destruct (first_rejection promises); auto.
Qed.

(** What [qrs.map((x, i) => [x[0], params[i]])] puts at a position: the
    submitted text with the entry of [params] at that position. *)
Lemma override_params_lookup (params : JsVal) (qrs : list (string * JsVal)) :
  forall (k : nat) (l : list (string * JsVal)) (i : nat) (qa : string * JsVal),
    override_params k qrs params = inr l -> l !! i = Some qa ->
    fst <$> qrs !! i = Some (fst qa) /\ js_index params (k + i) = inr (snd qa).
Proof.
  induction qrs as [|x qrs IH]; intros k l i qa H Hi; simpl in H.
  - injection H as <-. rewrite lookup_nil in Hi. discriminate.
  - destruct (js_index params k) as [e|v] eqn:Ev; [discriminate|].
    destruct (override_params (S k) qrs params) as [e|tl] eqn:E; [discriminate|].
    injection H as <-. destruct i as [|i]; simpl in Hi.
    + injection Hi as <-. simpl. rewrite Nat.add_0_r. split; [reflexivity|exact Ev].
    + destruct (IH _ _ _ _ E Hi) as [Ht Hp]. simpl. split; [exact Ht|].
      rewrite <- Nat.add_succ_comm. exact Hp.
Qed.

(** C7: an item the driver answers without error and without rows enters
    the failed list with the query as it was dispatched and the error list
    with "Query returned no rows", enters no row set, and is not counted as
    completed: the completed count is the number of items answered with rows.
    The dispatched query has the submitted text; its parameters are the
    submitted ones when the first trailing argument is missing or falsy, and
    the entry of that argument at the item's position when it is truthy. *)
Theorem batch_zero_rows_is_failure {L} (qrs : list (string * JsVal)) (args : list JsVal)
    (w : World DB L) (queryArgs : list (string * JsVal)) (d' : DB) (rs : list Response)
    (i : nat) (qa : string * JsVal) (res : QueryResult) :
  batch_queryArgs qrs (args_first args) = inr queryArgs ->
  feed (db w) (map item_statement queryArgs) = (d', rs) ->
  queryArgs !! i = Some qa ->
  rs !! i = Some (inr res) ->
  no_rows res = true ->
  exists w' r,
    multiquery qrs args w = (w', Fulfilled r) /\
    failed_query_list r !! i = Some qa /\
    error_list r !! i = Some (mkError "Query returned no rows") /\
    success_query_list r !! i = None /\
    completed r = length (List.filter productive rs) /\
    fst <$> qrs !! i = Some (fst qa) /\
    (if truthy (args_first args)
     then js_index (args_first args) i = inr (snd qa)
     else qrs !! i = Some qa).
Proof.
  intros Hqa Hfeed Hi Hri Hno.
  destruct (multiquery_run qrs args w queryArgs d' rs Hqa Hfeed) as (w' & Hrun & _).
  pose proof (feed_length _ _ _ _ Hfeed) as Hrs. rewrite length_map in Hrs.
  assert (Hsub : fst <$> qrs !! i = Some (fst qa) /\
                 (if truthy (args_first args)
                  then js_index (args_first args) i = inr (snd qa)
                  else qrs !! i = Some qa)).
  { unfold batch_queryArgs in Hqa. destruct (truthy (args_first args)).
    - exact (override_params_lookup _ _ 0 _ _ _ Hqa Hi).
    - injection Hqa as <-. rewrite Hi. split; reflexivity. }
  eexists _, _. split; [exact Hrun|]. simpl.
  destruct (record_all_at (nullish (args_last args) (JBool false)) queryArgs rs 0
              (initial_resp (length qrs)) i) as (Hf & He & Hs).
  change (0 + i) with i in Hf, He, Hs.
  rewrite Hi, Hri in Hf, He, Hs.
  unfold productive in Hf. rewrite Hno in Hf, He, Hs. simpl in Hf, He, Hs.
  rewrite Hf, He, Hs, record_all_completed by exact Hrs.
  destruct Hsub as [Ht Hp].
  split; [reflexivity|]. split; [reflexivity|]. split; [reflexivity|].
  split; [reflexivity|]. split; [exact Ht|exact Hp].
Qed.

(** *** The order in which the items settle does not matter *)

Lemma record_item_commute (ss : JsVal) (i j : nat) (qa qb : string * JsVal)
    (ra rb : Response) (rp : Report) :
  i <> j ->
  record_item ss i qa ra (record_item ss j qb rb rp) =
  record_item ss j qb rb (record_item ss i qa ra rp).
Proof.
  intros Hne. destruct rp as [c n sl fl el fe ot sc].
  destruct ra as [ea|resa], rb as [eb|resb]; simpl;
    try destruct (no_rows resa); try destruct (no_rows resb); simpl;
    try destruct (truthy ss); simpl;
    unfold set_success, set_error, set_failed, set_success_rows, incr_completed; simpl;
    f_equal; solve [reflexivity | apply insert_insert_ne; congruence].
Qed.

Lemma record_at_commute (ss : JsVal) (qas : list (string * JsVal)) (rs : list Response)
    (i j : nat) (rp : Report) :
  record_at ss qas rs i (record_at ss qas rs j rp) =
  record_at ss qas rs j (record_at ss qas rs i rp).
Proof.
  destruct (decide (i = j)) as [->|Hne]; [reflexivity|].
  unfold record_at.
  destruct (qas !! i), (rs !! i), (qas !! j), (rs !! j); try reflexivity.
  apply record_item_commute, Hne.
Qed.

Lemma record_in_order_permutation (ss : JsVal) (qas : list (string * JsVal))
    (rs : list Response) (o1 o2 : list nat) :
  o1 ≡ₚ o2 ->
  forall rp, record_in_order ss qas rs o1 rp = record_in_order ss qas rs o2 rp.
Proof.
  unfold record_in_order.
  induction 1 as [|k o1 o2 _ IH|k1 k2 o|o1 o2 o3 _ IH1 _ IH2]; intros rp; simpl.
  - reflexivity.
  - apply IH.
  - rewrite record_at_commute. reflexivity.
  - rewrite IH1. apply IH2.
Qed.

Lemma record_all_from (ss : JsVal) (qas : list (string * JsVal)) (rs : list Response) :
  forall (n i : nat) (rp : Report),
    length qas = i + n ->
    record_all ss i (drop i qas) (drop i rs) rp =
    record_in_order ss qas rs (seq i n) rp.
Proof.
  unfold record_in_order.
  induction n as [|n IH]; intros i rp Hlen; simpl.
  - rewrite drop_ge by lia. reflexivity.
  - destruct (lookup_lt_is_Some_2 qas i) as [qa Hqa]; [lia|].
    rewrite (drop_S _ _ _ Hqa). unfold record_at at 2. rewrite Hqa.
    destruct (rs !! i) as [r|] eqn:Hr.
    + rewrite (drop_S _ _ _ Hr). simpl. apply IH. lia.
    + rewrite (drop_ge rs) by (apply lookup_ge_None; exact Hr). simpl.
      clear IH Hqa Hlen. assert (Hno : forall k, i <= k -> rs !! k = None).
      { intros k Hk. apply lookup_ge_None. apply lookup_ge_None in Hr. lia. }
      assert (Hi : i < S i) by lia. revert Hi. generalize (S i) as m.
      induction n as [|n IHn]; intros m Hm; simpl; [reflexivity|].
      unfold record_at at 2. rewrite (Hno m) by lia.
      destruct (qas !! m); apply IHn; lia.
Qed.

(** Whatever the order in which the items settle, the report is the one of
    the in-order run. *)
Lemma settle_order_irrelevant (ss : JsVal) (qas : list (string * JsVal))
    (rs : list Response) (order : list nat) (rp : Report) :
  order ≡ₚ seq 0 (length qas) ->
  record_in_order ss qas rs order rp = record_all ss 0 qas rs rp.
Proof.
  intros Hperm. rewrite (record_in_order_permutation ss qas rs _ _ Hperm).
  symmetry. apply (record_all_from ss qas rs (length qas) 0 rp). reflexivity.
Qed.

(** *** One trailing argument *)

Lemma override_params_array (items : list JsVal) (qrs : list (string * JsVal)) :
  forall i,
    override_params i qrs (JArr items) =
    inr (imap (fun k x => (fst x, default JUndefined (items !! (i + k)))) qrs).
Proof.
  induction qrs as [|x qrs IH]; intros i; simpl; [reflexivity|].
  rewrite IH, Nat.add_0_r. do 2 f_equal.
  apply imap_ext. intros k y _. simpl. do 3 f_equal. lia.
Qed.

Lemma override_params_true (qrs : list (string * JsVal)) :
  forall i,
    override_params i qrs (JBool true) = inr (map (fun x => (fst x, JUndefined)) qrs).
Proof.
  induction qrs as [|x qrs IH]; intros i; simpl; [reflexivity|].
  rewrite IH. reflexivity.
Qed.

Lemma map_over_imap {A B C} (g : B -> C) (l : list A) :
  forall f : nat -> A -> B, map g (imap f l) = imap (fun n x => g (f n x)) l.
Proof. induction l as [|a l IH]; intros f; simpl; [reflexivity|]. f_equal. apply IH. Qed.

Lemma truthy_nullish (x : JsVal) : truthy (nullish x (JBool false)) = truthy x.
Proof. destruct x; reflexivity. Qed.

Lemma rows_when_some (res : QueryResult) :
  no_rows res = false -> Some (default [] (rows res)) = rows res.
Proof. unfold no_rows. destruct (rows res) as [[|]|]; simpl; congruence. Qed.

(** With the single trailing argument [x] the row sets are kept exactly when
    [x] is truthy. *)
Lemma multiquery_one_argument {L} (qrs : list (string * JsVal)) (x : JsVal) (w : World DB L)
    (queryArgs : list (string * JsVal)) :
  batch_queryArgs qrs x = inr queryArgs ->
  exists w' r,
    multiquery qrs [x] w = (w', Fulfilled r) /\
    wire w' = wire w ++ map item_statement queryArgs /\
    forall i,
      success_query_list r !! i =
      match snd (feed (db w) (map item_statement queryArgs)) !! i with
      | Some (inr res) => if negb (no_rows res) && truthy x then rows res else None
      | _ => None
      end.
Proof.
  intros Hqa.
  destruct (feed (db w) (map item_statement queryArgs)) as [d' rs] eqn:Hfeed.
  destruct (multiquery_run qrs [x] w queryArgs d' rs Hqa Hfeed) as (w' & Hrun & Hmv & _).
  pose proof (feed_length _ _ _ _ Hfeed) as Hrs. rewrite length_map in Hrs.
  eexists _, _. split; [exact Hrun|]. split; [apply Hmv|].
  intros i. simpl.
  destruct (record_all_at (nullish (args_last [x]) (JBool false)) queryArgs rs 0
              (initial_resp (length qrs)) i) as (_ & _ & Hs).
  change (0 + i) with i in Hs. rewrite Hs. clear Hs.
  change (args_last [x]) with x. rewrite truthy_nullish.
  destruct (rs !! i) as [r|] eqn:Hri.
  - destruct (lookup_lt_is_Some_2 queryArgs i) as [qa ->].
    { rewrite <- Hrs. apply lookup_lt_Some in Hri. exact Hri. }
    destruct r as [e|res]; [apply lookup_empty|].
    destruct (no_rows res) eqn:Hno; simpl; [apply lookup_empty|].
    destruct (truthy x); [apply rows_when_some, Hno|apply lookup_empty].
  - destruct (queryArgs !! i); apply lookup_empty.
Qed.

(** C10: with exactly one trailing argument [x], [x] is both [params] and
    the flag [saveSuccess] (after [?? false]).  An array keeps the row sets
    of the productive items, and the parameters of query [i] become its item
    [i]; the literal [true] keeps them too, and every query is sent with
    [undefined] in place of its parameter list. *)
Theorem batch_single_trailing_argument {L} (qrs : list (string * JsVal)) (w : World DB L) :
  (forall x : JsVal,
     args_first [x] = x /\
     nullish (args_last [x]) (JBool false) = nullish x (JBool false)) /\
  (forall items : list JsVal,
     let sent := imap (fun i q => (fst q, [default JUndefined (items !! i)])) qrs in
     exists w' r,
       multiquery qrs [JArr items] w = (w', Fulfilled r) /\
       wire w' = wire w ++ sent /\
       forall i,
         success_query_list r !! i =
         match snd (feed (db w) sent) !! i with
         | Some (inr res) => if no_rows res then None else rows res
         | _ => None
         end) /\
  (let sent := map (fun q => (fst q, [JUndefined])) qrs in
   exists w' r,
     multiquery qrs [JBool true] w = (w', Fulfilled r) /\
     wire w' = wire w ++ sent /\
     forall i,
       success_query_list r !! i =
       match snd (feed (db w) sent) !! i with
       | Some (inr res) => if no_rows res then None else rows res
       | _ => None
       end).
Proof.
  split; [|split].
  - intros x. split; reflexivity.
  - intros items sent.
    destruct (multiquery_one_argument qrs (JArr items) w
                (imap (fun k x => (fst x, default JUndefined (items !! (0 + k)))) qrs))
      as (w' & r & Hrun & Hw & Hs).
    { unfold batch_queryArgs. simpl. apply override_params_array. }
    assert (Hsent : map item_statement
                      (imap (fun k x => (fst x, default JUndefined (items !! (0 + k)))) qrs)
                    = sent).
    { subst sent. rewrite map_over_imap. apply imap_ext. intros; reflexivity. }
    rewrite Hsent in Hw, Hs.
    exists w', r. split; [exact Hrun|]. split; [exact Hw|].
    intros i. rewrite Hs. destruct (snd (feed (db w) sent) !! i) as [[e|res]|]; try reflexivity.
    simpl. rewrite andb_true_r. destruct (no_rows res); reflexivity.
  - intros sent.
    destruct (multiquery_one_argument qrs (JBool true) w
                (map (fun x => (fst x, JUndefined)) qrs))
      as (w' & r & Hrun & Hw & Hs).
    { unfold batch_queryArgs. simpl. apply override_params_true. }
    assert (Hsent : map item_statement (map (fun x => (fst x, JUndefined)) qrs) = sent).
    { subst sent. rewrite map_map. reflexivity. }
    rewrite Hsent in Hw, Hs.
    exists w', r. split; [exact Hrun|]. split; [exact Hw|].
    intros i. rewrite Hs. destruct (snd (feed (db w) sent) !! i) as [[e|res]|]; try reflexivity.
    simpl. rewrite andb_true_r. destruct (no_rows res); reflexivity.
Qed.

(** ** The logging flag: proofs *)

Lemma blind_ret {L A} (a : A) : flag_blind (ret a : M L A).
Proof. split; intros; simpl; auto. Qed.

Lemma blind_throw {L A} (e : Error) : flag_blind (throw e : M L A).
Proof. split; intros; simpl; auto. Qed.

Lemma blind_bind {L A B} (m : M L A) (k : A -> M L B) :
  flag_blind m -> (forall a, flag_blind (k a)) -> flag_blind (bind m k).
Proof.
  intros [Hm Hmq] Hk. split.
  - intros w1 w2 Hag. destruct (Hm w1 w2 Hag) as [Hag' Hout]. unfold bind.
    destruct (m w1) as [w1' o1], (m w2) as [w2' o2]; simpl in *. subst o1.
    destruct o2 as [e|a]; [auto|]. apply (Hk a). exact Hag'.
  - intros w Hoff. destruct (Hmq w Hoff) as [Hl Hc]. unfold bind.
    destruct (m w) as [w' [e|a]]; simpl in *; [auto|].
    destruct (Hk a) as [_ Hkq]. destruct (Hkq w' Hl) as [Hl' Hc'].
    split; congruence.
Qed.

Lemma blind_try_catch {L A} (m : M L A) (h : Error -> M L A) :
  flag_blind m -> (forall e, flag_blind (h e)) -> flag_blind (try_catch m h).
Proof.
  intros [Hm Hmq] Hh. split.
  - intros w1 w2 Hag. destruct (Hm w1 w2 Hag) as [Hag' Hout]. unfold try_catch.
    destruct (m w1) as [w1' o1], (m w2) as [w2' o2]; simpl in *. subst o1.
    destruct o2 as [e|a]; [|auto]. apply (Hh e). exact Hag'.
  - intros w Hoff. destruct (Hmq w Hoff) as [Hl Hc]. unfold try_catch.
    destruct (m w) as [w' [e|a]]; simpl in *; [|auto].
    destruct (Hh e) as [_ Hhq]. destruct (Hhq w' Hl) as [Hl' Hc'].
    split; congruence.
Qed.

Lemma blind_spawn {L A} (m : M L A) : flag_blind m -> flag_blind (spawn m).
Proof.
  intros [Hm Hmq]. split.
  - intros w1 w2 Hag. destruct (Hm w1 w2 Hag) as [Hag' Hout]. unfold spawn.
    destruct (m w1), (m w2); simpl in *. split; congruence.
  - intros w Hoff. destruct (Hmq w Hoff) as [Hl Hc]. unfold spawn.
    destruct (m w); simpl in *. auto.
Qed.

Lemma blind_await {L A} (p : Error + A) : flag_blind (await p : M L A).
Proof. destruct p; [apply blind_throw|apply blind_ret]. Qed.

Lemma blind_get_local {L} : flag_blind (get_local : M L L).
Proof.
  split; intros; simpl; auto. split; [assumption|]. f_equal. apply H.
Qed.

Lemma blind_modify_local {L} (f : L -> L) : flag_blind (modify_local f).
Proof.
  split.
  - intros w1 w2 (Hd & Hw & Hr & Hl). unfold agree; simpl. rewrite Hl. auto.
  - intros w Hoff. simpl. auto.
Qed.

Lemma blind_with_local {L L' A} (l0 : L') (m : M L' A) :
  flag_blind m -> flag_blind (with_local l0 m : M L A).
Proof.
  intros [Hm Hmq]. split.
  - intros w1 w2 (Hd & Hw & Hr & Hl).
    destruct (Hm (set_local l0 w1) (set_local l0 w2)) as [(Hd' & Hw' & Hr' & Hl') Hout].
    { unfold agree; simpl; auto. }
    unfold with_local.
    destruct (m (set_local l0 w1)), (m (set_local l0 w2)); simpl in *.
    unfold agree; simpl. auto.
  - intros w Hoff. destruct (Hmq (set_local l0 w) Hoff) as [Hl Hc].
    unfold with_local. destruct (m (set_local l0 w)); simpl in *. auto.
Qed.

Lemma blind_client_call {L} (text : string) (args : list JsVal) :
  flag_blind (client_call text args : M L Response).
Proof.
  split.
  - intros w1 w2 (Hd & Hw & Hr & Hl). unfold client_call. rewrite Hd.
    destruct (exec (db w2) text args). unfold agree; simpl.
    rewrite Hw. auto.
  - intros w Hoff. unfold client_call. destruct (exec (db w) text args); simpl. auto.
Qed.

Lemma blind_send_log {L} (msg : string) (c : Color) : flag_blind (send_log msg c : M L unit).
Proof.
  split.
  - intros w1 w2 Hag. rewrite !send_log_eq. simpl. split; [exact Hag|reflexivity].
  - intros w Hoff. rewrite send_log_eq. simpl. rewrite Hoff. auto.
Qed.

Lemma blind_date_now {L} : flag_blind (date_now : M L Z).
Proof.
  split.
  - intros w1 w2 (Hd & Hw & Hr & Hl). unfold date_now, agree; simpl. rewrite Hr. auto.
  - intros w Hoff. simpl. auto.
Qed.

Create HintDb blind.
#[local] Hint Resolve blind_ret blind_throw blind_spawn blind_await blind_get_local
  blind_modify_local blind_with_local blind_client_call blind_send_log blind_date_now
  : blind.

Ltac blind_step :=
  first [ apply blind_bind; [|intros ?] | apply blind_try_catch; [|intros ?]
        | match goal with |- flag_blind (if ?b then _ else _) => destruct b end
        | match goal with |- flag_blind (match ?x with _ => _ end) => destruct x end
        | solve [auto with blind] ].

Lemma blind_client_await {L} (text : string) : flag_blind (client_await text : M L QueryResult).
Proof. unfold client_await. repeat blind_step. Qed.

Lemma blind_query {L} (q : string) (args : list JsVal) :
  flag_blind (query q args : M L QueryResult).
Proof. unfold query. repeat blind_step. Qed.

#[local] Hint Resolve blind_client_await blind_query : blind.

Lemma blind_batch_item (ss : JsVal) (i : nat) (qa : string * JsVal) :
  flag_blind (batch_item ss i qa).
Proof. unfold batch_item, modify_resp. repeat blind_step. Qed.

Lemma blind_spawn_items (ss : JsVal) (qas : list (string * JsVal)) :
  forall i, flag_blind (spawn_items ss i qas).
Proof.
  induction qas as [|qa qas IH]; intros i; simpl.
  - apply blind_ret.
  - apply blind_bind; [apply blind_spawn, blind_batch_item|intros p].
    apply blind_bind; [apply IH|intros ps]. apply blind_ret.
Qed.

Lemma blind_batch_executor (n : nat) (promises : list (Error + unit)) :
  flag_blind (batch_executor n promises).
Proof.
  unfold batch_executor, await_all, modify_resp, resolve_resp. repeat blind_step.
Qed.

Lemma blind_multiquery_body {L} (qrs : list (string * JsVal)) (args : list JsVal) :
  flag_blind (multiquery_body qrs args : M L (Settled Report)).
Proof.
  unfold multiquery_body. apply blind_bind; [apply blind_await|intros qas].
  apply blind_with_local.
  apply blind_bind; [apply blind_spawn_items|intros ps].
  apply blind_bind; [apply blind_spawn, blind_batch_executor|intros _].
  repeat blind_step.
Qed.

Lemma blind_tx_loop (n : nat) (qas : list (string * JsVal)) :
  forall r, flag_blind (tx_loop n qas r).
Proof.
  induction qas as [|qa qas IH]; intros r; simpl.
  - apply blind_ret.
  - apply blind_bind; [apply blind_query|intros r'].
    apply blind_bind; [|intros _; apply IH].
    unfold reject_tx. repeat blind_step.
Qed.

Lemma blind_transaction_body {L} (queries : list string) (bodies : list JsVal) :
  flag_blind (transaction_body queries bodies : M L TxPromise).
Proof.
  unfold transaction_body, tx_executor. apply blind_with_local.
  apply blind_bind; [|intros _; apply blind_get_local].
  apply blind_spawn, blind_try_catch.
  - apply blind_bind; [apply blind_client_await|intros _].
    apply blind_bind; [apply blind_tx_loop|intros r].
    unfold resolve_tx. repeat blind_step.
  - intros e. unfold reject_tx. repeat blind_step.
Qed.

Lemma agree_set_log {L} (w : World DB L) : agree (set_log true w) (set_log false w).
Proof. unfold agree; simpl; auto. Qed.

(** C8: with the flag on and with the flag off, a single query and a batch
    call end with the same result or report, the same error when they fail,
    the same driver state and the same statements sent; with the flag off
    nothing is printed. *)
Theorem log_flag_noninterference {L} (w : World DB L) :
  (forall (q : string) (args : list JsVal),
     let on := query q args (set_log true w) in
     let off := query q args (set_log false w) in
     snd on = snd off /\ db (fst on) = db (fst off) /\ wire (fst on) = wire (fst off) /\
     console (fst off) = console w) /\
  (forall (qrs : list (string * JsVal)) (args : list JsVal),
     let on := multiquery qrs args (set_log true w) in
     let off := multiquery qrs args (set_log false w) in
     snd on = snd off /\ db (fst on) = db (fst off) /\ wire (fst on) = wire (fst off) /\
     console (fst off) = console w).
Proof.
  split.
  - intros q args on off. subst on off.
    destruct (blind_query (L := L) q args) as [Hb Hq].
    destruct (Hb _ _ (agree_set_log w)) as [(Hd & Hw & _) Hout].
    destruct (Hq (set_log false w) eq_refl) as [_ Hc]. auto.
  - intros qrs args on off. subst on off.
    destruct (blind_multiquery_body (L := L) qrs args) as [Hb Hq].
    destruct (Hb _ _ (agree_set_log w)) as [(Hd & Hw & _) Hout].
    destruct (Hq (set_log false w) eq_refl) as [_ Hc].
    unfold multiquery, async_call.
    destruct (multiquery_body qrs args (set_log true w)) as [w1 o1].
    destruct (multiquery_body qrs args (set_log false w)) as [w0 o0].
    simpl in *. subst o1. destruct o0; simpl; auto.
Qed.


(** ** Query executor: further properties *)

(** The world and the outcome of one [query] call, in closed form. *)
Lemma query_eq {L} (q : string) (args : list JsVal) (w : World DB L) :
  query q args w =
  (mkWorld (log w) (fst (exec (db w) q args)) (wire w ++ [(q, args)])
     (printed w [query_line q (snd (exec (db w) q args))]) (reads w) (local w),
   query_outcome (snd (exec (db w) q args))).
Proof.
  unfold query, bind, client_call, printed.
  destruct (exec (db w) q args) as [d1 [err|res]]; simpl; rewrite send_log_eq;
    unfold logged; simpl; destruct (log w); reflexivity.
Qed.

(** X1: A call with at most one value after the text sends one statement, the
    text with that value, and prints one line when logging is on: yellow for
    a driver error, blue for a result.  A driver error is the rejection,
    unchanged. *)
Theorem query_one_statement_one_line {L} (q : string) (args : list JsVal) (w : World DB L) :
  length args <= 1 ->
  let w' := fst (query q args w) in
  let r := snd (exec (db w) q args) in
  wire w' = wire w ++ [(q, args)] /\
  db w' = fst (exec (db w) q args) /\
  console w' = (if log w then console w ++ [query_line q r] else console w) /\
  (forall err, r = inl err -> snd (query q args w) = inl err) /\
  (forall res, r = inr res -> snd (query q args w) = inr (decorate res)).
Proof.
  intros _. rewrite query_eq. cbn [fst snd wire db console]. repeat split.
  - intros err ->. reflexivity.
  - intros res ->. reflexivity.
Qed.

(** X2: The result handed on is the driver's own, with the same command, rows
    and row count; the export hook is set on a SELECT, and any other result
    is passed through untouched. *)
Theorem query_hook_only_on_select {L} (q : string) (args : list JsVal) (w : World DB L)
    (res : QueryResult) :
  snd (exec (db w) q args) = inr res ->
  exists res',
    snd (query q args w) = inr res' /\
    command res' = command res /\ rows res' = rows res /\ rowCount res' = rowCount res /\
    (command res = Some "SELECT" -> to_excel res' = true) /\
    (command res <> Some "SELECT" -> res' = res).
Proof.
  intros Hr. rewrite query_eq, Hr. exists (decorate res). cbn [snd query_outcome].
  unfold decorate, is_select. split; [reflexivity|].
  destruct (command res) as [c|] eqn:Hc.
  - destruct (String.eqb_spec c "SELECT") as [->|Hne]; simpl; rewrite ?Hc;
      repeat split; try congruence; auto.
  - repeat split; auto. discriminate.
Qed.


(** ** Transaction coordinator: further properties *)

(** *** Only [resolve] fulfils, and a settled promise never changes *)

Lemma guarded_ret {A} (a : A) : guarded (ret a).
Proof. intros w. simpl. auto. Qed.

Lemma guarded_throw {A} (e : Error) : guarded (throw e : M TxPromise A).
Proof. intros w. simpl. auto. Qed.

Lemma guarded_bind {A B} (m : M TxPromise A) (k : A -> M TxPromise B) :
  guarded m -> (forall a, guarded (k a)) -> guarded (bind m k).
Proof.
  intros Hm Hk w. destruct (Hm w) as [Hkeep Hful]. unfold bind.
  destruct (m w) as [w1 [e|a]]; simpl in *; [auto|].
  destruct (Hk a w1) as [Hkeep' Hful']. split.
  - intros Hs. rewrite Hkeep'; rewrite (Hkeep Hs); auto.
  - intros v Hv. auto.
Qed.

Lemma guarded_try_catch {A} (m : M TxPromise A) (h : Error -> M TxPromise A) :
  guarded m -> (forall e, guarded (h e)) -> guarded (try_catch m h).
Proof.
  intros Hm Hh w. destruct (Hm w) as [Hkeep Hful]. unfold try_catch.
  destruct (m w) as [w1 [e|a]]; simpl in *; [|auto].
  destruct (Hh e w1) as [Hkeep' Hful']. split.
  - intros Hs. rewrite Hkeep'; rewrite (Hkeep Hs); auto.
  - intros v Hv. auto.
Qed.

Lemma guarded_client_call (text : string) (args : list JsVal) :
  guarded (client_call text args).
Proof.
  intros w. unfold client_call. destruct (exec (db w) text args). simpl. auto.
Qed.

Lemma guarded_send_log (msg : string) (c : Color) : guarded (send_log msg c).
Proof. intros w. rewrite send_log_eq. simpl. auto. Qed.

Lemma guarded_reject (e : Error) : guarded (reject_tx e).
Proof.
  intros w. unfold reject_tx, modify_local. simpl.
  destruct (local w); simpl; split; intros; congruence.
Qed.

Lemma guarded_client_await (text : string) : guarded (client_await text).
Proof.
  unfold client_await. apply guarded_bind; [apply guarded_client_call|].
  intros [e|a]; [apply guarded_throw|apply guarded_ret].
Qed.

Lemma guarded_query (q : string) (args : list JsVal) : guarded (query q args).
Proof.
  unfold query. apply guarded_bind; [apply guarded_client_call|].
  intros [err|res]; (apply guarded_bind; [apply guarded_send_log|intros _]).
  - apply guarded_throw.
  - apply guarded_ret.
Qed.

Lemma guarded_tx_loop (n : nat) (qas : list (string * JsVal)) :
  forall r, guarded (tx_loop n qas r).
Proof.
  induction qas as [|qa qas IH]; intros r; simpl.
  - apply guarded_ret.
  - apply guarded_bind; [apply guarded_query|intros r'].
    apply guarded_bind; [|intros _; apply IH].
    destruct (has_tag r'); cbn [negb]; [apply guarded_ret|].
    apply guarded_bind; [apply guarded_send_log|intros _].
    apply guarded_bind; [apply guarded_client_await|intros _].
    apply guarded_reject.
Qed.

Lemma guarded_tx_handler (n : nat) (e : Error) :
  guarded
    (send_log ("fatal error with transaction of " +:+ pretty n +:+ " queries: "
               +:+ message e) red ;;
     client_await "ROLLBACK" ;;
     reject_tx e).
Proof.
  apply guarded_bind; [apply guarded_send_log|intros _].
  apply guarded_bind; [apply guarded_client_await|intros _].
  apply guarded_reject.
Qed.

Lemma bind_inr_inv {L A B} (m : M L A) (k : A -> M L B) (w w' : World DB L) (b : B) :
  bind m k w = (w', inr b) ->
  exists w1 a, m w = (w1, inr a) /\ k a w1 = (w', inr b).
Proof.
  unfold bind. destruct (m w) as [w1 [e|a]]; [discriminate|]. eauto.
Qed.

Lemma client_await_eq {L} (text : string) (w : World DB L) :
  client_await text w =
  (mkWorld (log w) (fst (exec (db w) text [])) (wire w ++ [(text, [])]) (console w)
     (reads w) (local w),
   snd (exec (db w) text [])).
Proof.
  unfold client_await, bind, client_call.
  destruct (exec (db w) text []) as [d1 [e|a]]; reflexivity.
Qed.

(** A loop that returns with the promise still pending has seen every step
    succeed. *)
Lemma tx_loop_pending (n : nat) (qas : list (string * JsVal)) :
  forall (r0 : option QueryResult) (w w' : World DB TxPromise) (v : option QueryResult),
    tx_loop n qas r0 w = (w', inr v) ->
    local w' = Pending ->
    exists rs,
      feed (db w) (map item_statement qas) = (db w', rs) /\
      forallb step_succeeds rs = true /\
      v = final_result r0 rs /\
      wire w' = wire w ++ map item_statement qas /\
      local w = Pending.
Proof.
  induction qas as [|qa qas IH]; intros r0 w w' v Hrun Hp; simpl in Hrun.
  - injection Hrun as <- <-. exists []. simpl. rewrite app_nil_r. auto.
  - apply bind_inr_inv in Hrun as (w1 & r' & Hq & Hrest).
    rewrite query_eq in Hq. injection Hq as <- Hout.
    destruct (exec (db w) (fst qa) [snd qa]) as [d1 [e|res]] eqn:Hex;
      simpl in Hout; [discriminate|]. injection Hout as <-.
    apply bind_inr_inv in Hrest as (w2 & [] & Hif & Hloop).
    rewrite has_tag_decorate in Hif. destruct (has_tag res) eqn:Htag; cbn [negb] in Hif.
    + injection Hif as <-.
      destruct (IH _ _ _ _ Hloop Hp) as (rs & Hfeed & Hok & Hv & Hw & Hl).
      cbn [db wire local fst] in Hfeed, Hw, Hl.
      exists (inr res :: rs). simpl. rewrite Hex, Hfeed. simpl. rewrite Htag, Hok.
      repeat split; auto.
      * rewrite Hv. apply final_result_cons, Hok.
      * rewrite Hw, <- app_assoc. reflexivity.
    + exfalso.
      apply bind_inr_inv in Hif as (w3 & [] & _ & Hif).
      apply bind_inr_inv in Hif as (w4 & rr & _ & Hrej).
      unfold reject_tx, modify_local in Hrej. injection Hrej as <-.
      destruct (guarded_tx_loop n qas (Some (decorate res))
                  (set_local (settle (local w4) (Rejected (mkError "Transaction failed"))) w4))
        as [Hkeep _].
      rewrite Hloop in Hkeep. cbn [fst local set_local] in Hkeep.
      rewrite Hkeep in Hp; destruct (local w4); discriminate.
Qed.

(** X9: The call resolves only after a full run: BEGIN answered, every step
    answered with a command tag, COMMIT answered.  The statements sent are
    then exactly BEGIN, the queries in order, COMMIT, and the value is the
    result of the last query. *)
Theorem transaction_resolves_only_after_commit {L} (w w' : World DB L)
    (queries : list string) (bodies : list JsVal) (v : option QueryResult) :
  transaction queries bodies w = (w', Fulfilled v) ->
  exists d1 d2 rb rc rs,
    exec (db w) "BEGIN" [] = (d1, inr rb) /\
    feed d1 (map item_statement (zip_bodies 0 queries bodies)) = (d2, rs) /\
    forallb step_succeeds rs = true /\
    exec d2 "COMMIT" [] = (db w', inr rc) /\
    v = final_result None rs /\
    wire w' = wire w ++ tx_statements queries bodies.
Proof.
  rewrite transaction_unfold. cbn zeta. intros Hrun. injection Hrun as Hw' Hv.
  set (w0 := set_local (Pending : TxPromise) w) in *.
  set (n := length queries) in *.
  assert (Hhandler : forall e wb,
             (forall u, local wb <> Fulfilled u) ->
             forall u, local (fst ((send_log ("fatal error with transaction of "
                                              +:+ pretty n +:+ " queries: " +:+ message e) red ;;
                                    client_await "ROLLBACK" ;;
                                    reject_tx e) wb)) <> Fulfilled u).
  { intros e wb Hno u Hu.
    destruct (guarded_tx_handler n e wb) as [_ Hful]. exact (Hno u (Hful u Hu)). }
  unfold tx_executor in Hv, Hw'. fold n in Hv, Hw'. unfold try_catch in Hv, Hw'.
  cbn zeta in Hv, Hw'. unfold bind at 1 in Hv. unfold bind at 1 in Hw'.
  rewrite client_await_eq in Hv, Hw'.
  destruct (exec (db w0) "BEGIN" []) as [d1 [e|rb]] eqn:Hb; cbn [fst snd] in Hv, Hw'.
  { exfalso. eapply Hhandler; [|exact Hv]. intros u. discriminate. }
  set (w1 := mkWorld (log w0) d1 (wire w0 ++ [("BEGIN", [])]) (console w0) (reads w0)
               (local w0)) in *.
  unfold bind at 1 in Hv. unfold bind at 1 in Hw'.
  destruct (tx_loop n (zip_bodies 0 queries bodies) None w1) as [w2 [e|r]] eqn:Hloop.
  { exfalso. eapply Hhandler; [|exact Hv].
    intros u Hu. destruct (guarded_tx_loop n (zip_bodies 0 queries bodies) None w1) as [_ Hful].
    rewrite Hloop in Hful. specialize (Hful u Hu). discriminate. }
  unfold bind at 1 in Hv. unfold bind at 1 in Hw'.
  rewrite client_await_eq in Hv, Hw'.
  assert (Hno2 : forall u, local w2 <> Fulfilled u).
  { intros u Hu. destruct (guarded_tx_loop n (zip_bodies 0 queries bodies) None w1) as [_ Hful].
    rewrite Hloop in Hful. specialize (Hful u Hu). discriminate. }
  destruct (exec (db w2) "COMMIT" []) as [d3 [e|rc]] eqn:Hc; cbn [fst snd] in Hv, Hw'.
  { exfalso. eapply Hhandler; [|exact Hv]. exact Hno2. }
  unfold bind at 1 in Hv. unfold bind at 1 in Hw'.
  rewrite send_log_eq in Hv, Hw'. cbn [fst snd] in Hv, Hw'.
  unfold resolve_tx, modify_local, logged in Hv, Hw'.
  cbn [fst snd local set_local log db wire console reads] in Hv, Hw'.
  destruct (local w2) as [|u|e] eqn:Hl2; cbn [settle] in Hv;
    [|exfalso; exact (Hno2 u eq_refl)|discriminate].
  injection Hv as <-.
  destruct (tx_loop_pending _ _ _ _ _ _ Hloop Hl2) as (rs & Hfeed & Hok & Hr & Hwire & _).
  subst w1. cbn [db wire] in Hfeed, Hwire.
  exists d1, (db w2), rb, rc, rs. subst w'. cbn [db wire set_local].
  change (db w0) with (db w) in Hb. change (wire w0) with (wire w) in Hwire.
  repeat split; auto.
  rewrite Hwire. unfold tx_statements. rewrite <- !app_assoc. reflexivity.
Qed.


(** X8: A ROLLBACK that fails after a step without a command tag: the exception
    leaves the loop, so no later step runs; the handler sends ROLLBACK once
    more and, when that one is answered, the call is rejected with the error
    of the first ROLLBACK, not with "Transaction failed". *)
Theorem transaction_rollback_throws {L} (w : World DB L) (queries : list string)
    (bodies : list JsVal) (pre post : list (string * JsVal)) (qa : string * JsVal)
    (e : Error) (d1 d2 d3 d4 d5 : DB) (rb res rr : QueryResult) (rs : list Response) :
  exec (db w) "BEGIN" [] = (d1, inr rb) ->
  zip_bodies 0 queries bodies = pre ++ qa :: post ->
  feed d1 (map item_statement pre) = (d2, rs) ->
  forallb step_succeeds rs = true ->
  exec d2 (fst qa) [snd qa] = (d3, inr res) ->
  has_tag res = false ->
  exec d3 "ROLLBACK" [] = (d4, inl e) ->
  exec d4 "ROLLBACK" [] = (d5, inr rr) ->
  exists w',
    transaction queries bodies w = (w', Rejected e) /\
    wire w' = wire w ++ ("BEGIN", []) :: map item_statement pre
                ++ [item_statement qa; ("ROLLBACK", []); ("ROLLBACK", [])].
Proof.
  intros Hb Hzip Hfeed Hok Hstep Htag Hroll1 Hroll2.
  set (n := length queries).
  set (w0 := set_local (Pending : TxPromise) w).
  destruct (client_await_run "BEGIN" w0) as (w1 & Hrun1 & Hadv1).
  change (db w0) with (db w) in Hrun1, Hadv1. rewrite Hb in Hrun1, Hadv1.
  simpl in Hrun1, Hadv1.
  destruct (tx_loop_prefix n pre (qa :: post) None w1 d2 rs) as (wA & HadvA & HrunA);
    [destruct Hadv1 as (Hd & _); rewrite Hd; exact Hfeed|exact Hok|].
  destruct (query_run (fst qa) [snd qa] wA) as (wB & Hq & HadvB).
  assert (HdA : db wA = d2) by apply HadvA.
  rewrite HdA, Hstep in Hq, HadvB. simpl in Hq, HadvB.
  set (wB' := logged ("failed transaction of " +:+ pretty n +:+ " queries") yellow wB).
  destruct (client_await_run "ROLLBACK" wB') as (wC & HrunC & HadvC).
  change (db wB') with (db wB) in HrunC, HadvC.
  assert (HdB : db wB = d3) by apply HadvB.
  rewrite HdB, Hroll1 in HrunC, HadvC. simpl in HrunC, HadvC.
  destruct Hadv1 as (_ & W1 & L1 & _), HadvA as (_ & WA & LA & _),
    HadvB as (_ & WB & LB & _), HadvC as (DC & WC & LC & _).
  change (wire w0) with (wire w) in W1.
  change (local w0) with (@Pending (option QueryResult)) in L1.
  change (wire wB') with (wire wB) in WC. change (local wB') with (local wB) in LC.
  destruct (tx_handler_run n e wC d5 rr) as (w2 & Hrun2 & Hd2 & Hw2 & Hl2).
  { rewrite LC, LB, LA, L1. reflexivity. }
  { rewrite DC. exact Hroll2. }
  exists (set_local (local w) w2). split.
  - rewrite transaction_unfold.
    change (tx_executor queries bodies (set_local Pending w))
      with (tx_executor queries bodies w0).
    unfold tx_executor. fold n. erewrite try_catch_inl.
    2:{ rewrite (bind_inr _ _ _ _ _ Hrun1), Hzip. apply bind_inl.
        rewrite HrunA. simpl. rewrite (bind_inr _ _ _ _ _ Hq), has_tag_decorate, Htag.
        cbn [negb]. apply bind_inl. unfold bind at 1. rewrite send_log_eq. fold wB'.
        apply bind_inl. exact HrunC. }
    rewrite Hrun2. cbn [fst]. rewrite Hl2. reflexivity.
  - cbn [wire set_local]. rewrite Hw2, WC, WB, WA, W1, <- !app_assoc. reflexivity.
Qed.

Lemma zip_bodies_lookup (queries : list string) (bodies : list JsVal) :
  forall (k i : nat) (q : string),
    queries !! i = Some q ->
    zip_bodies k queries bodies !! i = Some (q, default JUndefined (bodies !! (k + i))).
Proof.
  induction queries as [|x queries IH]; intros k i q Hq; [discriminate|].
  destruct i as [|i]; simpl in *.
  - injection Hq as ->. rewrite Nat.add_0_r. reflexivity.
  - rewrite (IH (S k) i q Hq). do 4 f_equal. lia.
Qed.

(** X11: The bodies are read by position.  A transaction that runs to its
    commit adds to the wire BEGIN, one statement per query and COMMIT, and
    nothing else, whatever the length of [bodies]: query [i] goes out with
    [bodies[i]], with [undefined] when [bodies] is too short, and surplus
    bodies are never sent. *)
Theorem transaction_bodies_by_position {L} (w : World DB L) (queries : list string)
    (bodies : list JsVal) (d1 d2 d3 : DB) (rb rc : QueryResult) (rs : list Response) :
  exec (db w) "BEGIN" [] = (d1, inr rb) ->
  feed d1 (map item_statement (zip_bodies 0 queries bodies)) = (d2, rs) ->
  forallb step_succeeds rs = true ->
  exec d2 "COMMIT" [] = (d3, inr rc) ->
  exists sent,
    wire (fst (transaction queries bodies w)) = wire w ++ sent /\
    length sent = length queries + 2 /\
    sent !! 0 = Some ("BEGIN", []) /\
    sent !! S (length queries) = Some ("COMMIT", []) /\
    forall i q,
      queries !! i = Some q ->
      sent !! S i = Some (q, [default JUndefined (bodies !! i)]).
Proof.
  intros Hb Hfeed Hok Hc.
  destruct (transaction_commits w queries bodies d1 d2 d3 rb rc rs Hb Hfeed Hok Hc)
    as (w' & Hrun & _ & Hwire & _).
  rewrite Hrun. cbn [fst]. exists (tx_statements queries bodies).
  split; [exact Hwire|]. unfold tx_statements.
  split; [simpl; rewrite length_app, length_map, zip_bodies_length; simpl; lia|].
  split; [reflexivity|].
  split.
  - change ((map item_statement (zip_bodies 0 queries bodies) ++ [("COMMIT", [])])
              !! length queries = Some ("COMMIT", [])).
    rewrite lookup_app_r by (rewrite length_map, zip_bodies_length; lia).
    rewrite length_map, zip_bodies_length, Nat.sub_diag. reflexivity.
  - intros i q Hq.
    change ((map item_statement (zip_bodies 0 queries bodies) ++ [("COMMIT", [])]) !! i
            = Some (q, [default JUndefined (bodies !! i)])).
    rewrite lookup_app_l.
    + change (map item_statement ?l) with (item_statement <$> l).
      rewrite list_lookup_fmap, (zip_bodies_lookup queries bodies 0 i q Hq). reflexivity.
    + rewrite length_map, zip_bodies_length. apply lookup_lt_Some in Hq. exact Hq.
Qed.

(** X12: The logging flag has no influence on a transaction: with the flag on
    and with the flag off the call ends in the same promise state, with the
    same driver state and the same statements sent, and with the flag off
    nothing is printed. *)
Theorem transaction_log_noninterference {L} (w : World DB L) (queries : list string)
    (bodies : list JsVal) :
  let on := transaction queries bodies (set_log true w) in
  let off := transaction queries bodies (set_log false w) in
  snd on = snd off /\ db (fst on) = db (fst off) /\ wire (fst on) = wire (fst off) /\
  console (fst off) = console w.
Proof.
  intros on off. subst on off.
  destruct (blind_transaction_body (L := L) queries bodies) as [Hb Hq].
  destruct (Hb _ _ (agree_set_log w)) as [(Hd & Hw & _) Hout].
  destruct (Hq (set_log false w) eq_refl) as [_ Hc].
  unfold transaction, async_call.
  destruct (transaction_body queries bodies (set_log true w)) as [w1 o1].
  destruct (transaction_body queries bodies (set_log false w)) as [w0 o0].
  simpl in *. subst o1. destruct o0; simpl; auto.
Qed.

(** X10: On a connection that answers every ROLLBACK the call always settles:
    only a failing ROLLBACK in the handler can leave the promise pending. *)
Theorem transaction_settles_when_rollback_answered {L} (w : World DB L)
    (queries : list string) (bodies : list JsVal) :
  (forall d, exists d' rr, exec d "ROLLBACK" [] = (d', inr rr)) ->
  snd (transaction queries bodies w) <> Pending.
Proof.
  intros Hrb. rewrite transaction_unfold. cbn zeta. cbn [snd].
  set (w0 := set_local (Pending : TxPromise) w).
  unfold tx_executor. set (n := length queries). unfold try_catch.
  match goal with
  | |- context [match ?b w0 with _ => _ end] => destruct (b w0) as [wb [e|[]]] eqn:Hbody
  end.
  - unfold bind at 1. rewrite send_log_eq. unfold bind at 1. rewrite client_await_eq.
    cbn [db logged].
    destruct (Hrb (db wb)) as (d' & rr & ->). cbn [fst snd].
    unfold reject_tx, modify_local. cbn [fst local set_local logged].
    destruct (local wb); simpl; discriminate.
  - cbn [fst]. cbn zeta in Hbody.
    apply bind_inr_inv in Hbody as (w1 & rb & _ & Hbody).
    apply bind_inr_inv in Hbody as (w2 & r & _ & Hbody).
    apply bind_inr_inv in Hbody as (w3 & rc & _ & Hbody).
    apply bind_inr_inv in Hbody as (w4 & [] & _ & Hbody).
    unfold resolve_tx, modify_local in Hbody. injection Hbody as <-.
    cbn [local set_local]. destruct (local w4); simpl; discriminate.
Qed.


(** ** Batch runner: further properties *)

Lemma printed_printed {L} (w : World DB L) (d : DB) (sent : list Statement) (k : nat)
    (l : L) (xs ys : list Line) :
  printed (mkWorld (log w) d sent (printed w xs) k l) ys = printed w (xs ++ ys).
Proof.
  unfold printed. simpl. destruct (log w); [rewrite app_assoc|]; reflexivity.
Qed.

Lemma printed_nil {L} (w : World DB L) : printed w [] = console w.
Proof. unfold printed. destruct (log w); [apply app_nil_r|reflexivity]. Qed.

(** One item, in closed form. *)
Lemma batch_item_eq (ss : JsVal) (i : nat) (qa : string * JsVal) (w : World DB BatchLocal) :
  batch_item ss i qa w =
  (mkWorld (log w) (fst (exec (db w) (fst qa) [snd qa])) (wire w ++ [item_statement qa])
     (printed w [query_line (fst qa) (snd (exec (db w) (fst qa) [snd qa]))]) (reads w)
     (mkBatchLocal
        (record_item ss i qa (snd (exec (db w) (fst qa) [snd qa])) (resp (local w)))
        (promise (local w))),
   inr tt).
Proof.
  unfold batch_item, try_catch, bind. rewrite query_eq.
  destruct (exec (db w) (fst qa) [snd qa]) as [d1 [e|res]]; cbn [fst snd query_outcome].
  - reflexivity.
  - rewrite no_rows_decorate, rows_decorate. unfold record_item.
    destruct (no_rows res); [reflexivity|]. destruct (truthy ss); reflexivity.
Qed.

(** All items, in closed form. *)
Lemma spawn_items_eq (ss : JsVal) (qas : list (string * JsVal)) :
  forall (i : nat) (w : World DB BatchLocal) (d' : DB) (rs : list Response),
    feed (db w) (map item_statement qas) = (d', rs) ->
    spawn_items ss i qas w =
    (mkWorld (log w) d' (wire w ++ map item_statement qas) (printed w (batch_lines qas rs))
       (reads w) (mkBatchLocal (record_all ss i qas rs (resp (local w))) (promise (local w))),
     inr (map (fun _ => inr tt) qas)).
Proof.
  induction qas as [|qa qas IH]; intros i w d' rs Hfeed; simpl in Hfeed.
  - injection Hfeed as <- <-. simpl. unfold ret. rewrite app_nil_r.
    change (batch_lines [] []) with (@nil Line). rewrite printed_nil.
    destruct w as [? ? ? ? ? []]; reflexivity.
  - change (exec (db w) (fst (item_statement qa)) (snd (item_statement qa)))
      with (exec (db w) (fst qa) [snd qa]) in Hfeed.
    simpl. unfold bind at 1, spawn at 1. rewrite batch_item_eq.
    destruct (exec (db w) (fst qa) [snd qa]) as [d1 r].
    destruct (feed d1 (map item_statement qas)) as [d2 rs'] eqn:E.
    injection Hfeed as <- <-. cbn [fst snd].
    unfold bind at 1. erewrite IH; [|exact E].
    unfold ret. cbn [log db wire console reads local resp promise].
    rewrite printed_printed, <- app_assoc. reflexivity.
Qed.

(** The executor when no item promise is rejected, in closed form. *)
Lemma batch_executor_eq (n : nat) (promises : list (Error + unit)) (w : World DB BatchLocal) :
  first_rejection promises = None ->
  batch_executor n promises w =
  let rp := set_operation_time (clock (S (reads w)) - clock (reads w)) (resp (local w)) in
  (mkWorld (log w) (db w) (wire w) (printed w [summary_line rp]) (S (S (reads w)))
     (mkBatchLocal rp (settle (promise (local w)) (Fulfilled rp))),
   inr tt).
Proof.
  intros Hnone.
  unfold batch_executor, await_all, try_catch, bind, date_now, modify_resp, modify_local,
    get_local, resolve_resp, ret.
  rewrite Hnone, send_log_eq. reflexivity.
Qed.

(** The whole call, in closed form. *)
Lemma multiquery_eq {L} (qrs : list (string * JsVal)) (args : list JsVal) (w : World DB L)
    (queryArgs : list (string * JsVal)) (d' : DB) (rs : list Response) :
  batch_queryArgs qrs (args_first args) = inr queryArgs ->
  feed (db w) (map item_statement queryArgs) = (d', rs) ->
  multiquery qrs args w =
  let r := set_operation_time (clock (S (reads w)) - clock (reads w))
             (record_all (nullish (args_last args) (JBool false)) 0 queryArgs rs
                (initial_resp (length qrs))) in
  (mkWorld (log w) d' (wire w ++ map item_statement queryArgs)
     (printed w (batch_lines queryArgs rs ++ [summary_line r])) (S (S (reads w))) (local w),
   Fulfilled r).
Proof.
  intros Hqa Hfeed.
  unfold multiquery, async_call, multiquery_body. rewrite Hqa.
  unfold bind at 1, await at 1, ret at 1, with_local.
  unfold bind at 1. erewrite spawn_items_eq; [|exact Hfeed].
  unfold bind at 1, spawn at 1.
  rewrite batch_executor_eq by apply first_rejection_fulfilled.
  cbn zeta. unfold bind, get_local, ret.
  cbn [log db wire console reads local resp promise set_local settle fst snd].
  unfold printed. cbn [log console set_local].
  destruct (log w); rewrite <- ?app_assoc; reflexivity.
Qed.

Lemma override_params_texts (params : JsVal) (qrs : list (string * JsVal)) :
  forall (i : nat) (l : list (string * JsVal)),
    override_params i qrs params = inr l -> map fst l = map fst qrs.
Proof.
  induction qrs as [|x qrs IH]; intros i l H; simpl in H.
  - injection H as <-. reflexivity.
  - destruct (js_index params i) as [e|v]; [discriminate|].
    destruct (override_params (S i) qrs params) as [e|tl] eqn:E; [discriminate|].
    injection H as <-. simpl. f_equal. exact (IH _ _ E).
Qed.

(** X14: A batch puts exactly one statement per submitted query on the wire, in
    submission order and with the submitted text, and nothing else: no BEGIN,
    COMMIT or ROLLBACK.  The driver ends in the state these statements lead
    to; without a truthy first argument the parameters are the submitted
    ones. *)
Theorem batch_sends_each_query_once {L} (qrs : list (string * JsVal)) (args : list JsVal)
    (w : World DB L) :
  exists queryArgs,
    batch_queryArgs qrs (args_first args) = inr queryArgs /\
    wire (fst (multiquery qrs args w)) = wire w ++ map item_statement queryArgs /\
    db (fst (multiquery qrs args w)) = fst (feed (db w) (map item_statement queryArgs)) /\
    length queryArgs = length qrs /\
    map fst queryArgs = map fst qrs /\
    (truthy (args_first args) = false -> queryArgs = qrs).
Proof.
  destruct (batch_queryArgs_total qrs (args_first args)) as (qas & Hqa & Hlen).
  exists qas. split; [exact Hqa|].
  destruct (feed (db w) (map item_statement qas)) as [d' rs] eqn:Hfeed.
  rewrite (multiquery_eq qrs args w qas d' rs Hqa Hfeed). cbn [fst wire db].
  repeat split; auto.
  - unfold batch_queryArgs in Hqa. destruct (truthy (args_first args)).
    + exact (override_params_texts _ _ _ _ Hqa).
    + injection Hqa as <-. reflexivity.
  - intros Hf. unfold batch_queryArgs in Hqa. rewrite Hf in Hqa.
    injection Hqa as <-. reflexivity.
Qed.

(** X21: With logging on a batch prints one line per query, in submission order
    (blue when the driver answered, yellow when it failed), and then one white
    summary line with the completed count and the number of queries; with
    logging off it prints nothing. *)
Theorem batch_console {L} (qrs : list (string * JsVal)) (args : list JsVal) (w : World DB L)
    (queryArgs : list (string * JsVal)) (d' : DB) (rs : list Response) :
  batch_queryArgs qrs (args_first args) = inr queryArgs ->
  feed (db w) (map item_statement queryArgs) = (d', rs) ->
  exists w' r,
    multiquery qrs args w = (w', Fulfilled r) /\
    console w' =
      (if log w
       then console w ++ batch_lines queryArgs rs
              ++ [(colors white,
                   "new " +:+ pretty (length (List.filter productive rs)) +:+ "/"
                   +:+ pretty (length qrs) +:+ " multi-query")]
       else console w).
Proof.
  intros Hqa Hfeed.
  pose proof (feed_length _ _ _ _ Hfeed) as Hrs. rewrite length_map in Hrs.
  rewrite (multiquery_eq qrs args w queryArgs d' rs Hqa Hfeed). cbn zeta.
  eexists _, _. split; [reflexivity|]. cbn [console]. unfold printed, summary_line.
  cbn [completed completed_of set_operation_time].
  destruct (record_all_rest (nullish (args_last args) (JBool false)) queryArgs rs 0
              (initial_resp (length qrs))) as (Hof & _).
  rewrite Hof, record_all_completed by exact Hrs. reflexivity.
Qed.



(** The entries of the report of a whole batch, read off the responses. *)
Lemma report_entries (ss : JsVal) (qas : list (string * JsVal)) (rs : list Response)
    (n i : nat) :
  length rs = length qas ->
  failed_query_list (record_all ss 0 qas rs (initial_resp n)) !! i =
    match rs !! i with
    | Some r => if productive r then None else qas !! i
    | None => None
    end /\
  error_list (record_all ss 0 qas rs (initial_resp n)) !! i =
    match rs !! i with
    | Some (inl e) => Some e
    | Some (inr res) => if no_rows res then Some (mkError "Query returned no rows") else None
    | None => None
    end /\
  success_query_list (record_all ss 0 qas rs (initial_resp n)) !! i =
    match rs !! i with
    | Some (inr res) => if negb (no_rows res) && truthy ss then rows res else None
    | _ => None
    end.
Proof.
  intros Hlen.
  destruct (record_all_at ss qas rs 0 (initial_resp n) i) as (Hf & He & Hs).
  change (0 + i) with i in Hf, He, Hs. rewrite Hf, He, Hs. clear Hf He Hs.
  cbn [failed_query_list error_list success_query_list initial_resp].
  rewrite !lookup_empty.
  destruct (rs !! i) as [r|] eqn:Hri.
  - destruct (lookup_lt_is_Some_2 qas i) as [qa ->].
    { rewrite <- Hlen. apply lookup_lt_Some in Hri. exact Hri. }
    split; [|split].
    + destruct (productive r); reflexivity.
    + destruct r as [e|res]; [reflexivity|]. destruct (no_rows res); reflexivity.
    + destruct r as [e|res]; [reflexivity|].
      destruct (no_rows res) eqn:Hno; [reflexivity|]. cbn [negb andb].
      destruct (truthy ss); [apply rows_when_some, Hno|reflexivity].
  - destruct (qas !! i); auto.
Qed.

(** X15: In every report the failed list and the error list have the same keys,
    no index is both in the row sets and in the failed list, and every key is
    the index of a submitted query. *)
Theorem batch_failure_maps_agree {L} (qrs : list (string * JsVal)) (args : list JsVal)
    (w : World DB L) :
  exists w' r,
    multiquery qrs args w = (w', Fulfilled r) /\
    dom (failed_query_list r) = dom (error_list r) /\
    dom (success_query_list r) ## dom (failed_query_list r) /\
    (forall i, i ∈ dom (failed_query_list r) ∪ dom (success_query_list r) ->
               i < length qrs).
Proof.
  destruct (batch_queryArgs_total qrs (args_first args)) as (qas & Hqa & Hlen).
  destruct (feed (db w) (map item_statement qas)) as [d' rs] eqn:Hfeed.
  pose proof (feed_length _ _ _ _ Hfeed) as Hrs. rewrite length_map in Hrs.
  rewrite (multiquery_eq qrs args w qas d' rs Hqa Hfeed). cbn zeta.
  eexists _, _. split; [reflexivity|].
  cbn [failed_query_list error_list success_query_list set_operation_time].
  set (ss := nullish (args_last args) (JBool false)).
  assert (Hent := fun i => report_entries ss qas rs (length qrs) i Hrs).
  split; [|split].
  - apply set_eq. intros i. rewrite !elem_of_dom.
    destruct (Hent i) as (-> & -> & _).
    destruct (rs !! i) as [[e|res]|] eqn:Hri; simpl.
    + destruct (lookup_lt_is_Some_2 qas i) as [qa ->]; [|split; eauto].
      rewrite <- Hrs. apply lookup_lt_Some in Hri. exact Hri.
    + destruct (no_rows res); simpl; [|split; intros [? ?]; discriminate].
      destruct (lookup_lt_is_Some_2 qas i) as [qa ->]; [|split; eauto].
      rewrite <- Hrs. apply lookup_lt_Some in Hri. exact Hri.
    + split; intros [? ?]; discriminate.
  - apply elem_of_disjoint. intros i. rewrite !elem_of_dom.
    destruct (Hent i) as (-> & _ & ->).
    destruct (rs !! i) as [[e|res]|]; simpl; try (intros [? ?]; discriminate).
    destruct (no_rows res); simpl; intros [? ?] [? ?]; discriminate.
  - intros i. rewrite elem_of_union, !elem_of_dom.
    destruct (Hent i) as (-> & _ & ->). rewrite <- Hlen, <- Hrs.
    destruct (rs !! i) as [r|] eqn:Hri.
    + intros _. apply lookup_lt_Some in Hri. exact Hri.
    + intros [[? ?]|[? ?]]; discriminate.
Qed.

(** X18: Row sets are kept exactly when the last trailing argument is truthy:
    the entry of index [i] is the row array of item [i] when the item was
    answered with rows and that argument is truthy, and there is no entry
    otherwise.  With two arguments the second alone decides; with none
    nothing is kept. *)
Theorem batch_rows_follow_last_argument {L} (qrs : list (string * JsVal))
    (args : list JsVal) (w : World DB L) (queryArgs : list (string * JsVal)) :
  batch_queryArgs qrs (args_first args) = inr queryArgs ->
  exists w' r,
    multiquery qrs args w = (w', Fulfilled r) /\
    forall i,
      success_query_list r !! i =
      match snd (feed (db w) (map item_statement queryArgs)) !! i with
      | Some (inr res) =>
          if negb (no_rows res) && truthy (args_last args) then rows res else None
      | _ => None
      end.
Proof.
  intros Hqa.
  destruct (feed (db w) (map item_statement queryArgs)) as [d' rs] eqn:Hfeed.
  pose proof (feed_length _ _ _ _ Hfeed) as Hrs. rewrite length_map in Hrs.
  rewrite (multiquery_eq qrs args w queryArgs d' rs Hqa Hfeed). cbn zeta.
  eexists _, _. split; [reflexivity|]. intros i.
  cbn [success_query_list set_operation_time snd].
  destruct (report_entries (nullish (args_last args) (JBool false)) queryArgs rs
              (length qrs) i Hrs) as (_ & _ & ->).
  rewrite truthy_nullish. reflexivity.
Qed.

Lemma record_all_flag (ss ss' : JsVal) (qas : list (string * JsVal)) :
  truthy ss = truthy ss' ->
  forall rs i rp, record_all ss i qas rs rp = record_all ss' i qas rs rp.
Proof.
  intros Ht. induction qas as [|qa qas IH]; intros rs i rp; simpl; [reflexivity|].
  destruct rs as [|r rs]; [reflexivity|]. rewrite IH. f_equal.
  unfold record_item. rewrite Ht. reflexivity.
Qed.

(** X19: A falsy single trailing argument ([false], [0], the empty string,
    [null], [undefined]) changes nothing: the call behaves exactly as the
    call without trailing arguments. *)
Theorem batch_falsy_argument_is_ignored {L} (qrs : list (string * JsVal)) (x : JsVal)
    (w : World DB L) :
  truthy x = false ->
  multiquery qrs [x] w = multiquery qrs [] w.
Proof.
  intros Hx.
  destruct (feed (db w) (map item_statement qrs)) as [d' rs] eqn:Hfeed.
  rewrite (multiquery_eq qrs [x] w qrs d' rs), (multiquery_eq qrs [] w qrs d' rs);
    try exact Hfeed; try reflexivity.
  - cbn zeta.
    rewrite (record_all_flag (nullish (args_last [x]) (JBool false))
               (nullish (args_last []) (JBool false))); [reflexivity|].
    change (args_last [x]) with x. rewrite truthy_nullish. exact Hx.
  - unfold batch_queryArgs. change (args_first [x]) with x. rewrite Hx. reflexivity.
Qed.

(** X22: The empty batch: nothing is sent, and the call resolves with a report
    of zero completed out of zero, empty lists, no fatal error and the
    success flag set.  The summary line is still printed when logging is
    on. *)
Theorem batch_of_no_queries {L} (args : list JsVal) (w : World DB L) :
  exists w',
    multiquery [] args w =
    (w', Fulfilled (mkReport 0 0 ∅ ∅ ∅ None (clock (S (reads w)) - clock (reads w)) true)) /\
    wire w' = wire w /\ db w' = db w /\ log w' = log w /\ local w' = local w /\
    console w' =
      (if log w then console w ++ [(colors white, "new 0/0 multi-query")] else console w).
Proof.
  rewrite (multiquery_eq [] args w [] (db w) []).
  - cbn zeta. simpl. rewrite app_nil_r. eexists. split; [reflexivity|].
    cbn [wire db log local console]. repeat split.
  - unfold batch_queryArgs. destruct (truthy (args_first args)); reflexivity.
  - reflexivity.
Qed.


(** ** Construction: properties *)

(** X24: Construction never fails.  A connection error is not raised to the
    caller: it is printed as one red line with the driver's message, a
    successful connection as one green line, and with logging off neither is
    printed.  Logging is on when the flag is omitted, and the driver's
    defaults are used when the configuration is omitted. *)
Theorem constructor_reports_connection {Config : Type} (new_client : Config -> DB)
    (connect : DB -> DB * (Error + unit)) (defaults : Config)
    (config : option Config) (log_arg : option bool) (out : list Line) (k : nat) :
  let handle := new_client (default defaults config) in
  let made := constructor new_client connect defaults config log_arg out k in
  snd made = inr tt /\
  log (fst made) = default true log_arg /\
  db (fst made) = fst (connect handle) /\
  wire (fst made) = [] /\
  console (fst made) =
    (if default true log_arg then out ++ [connect_line (snd (connect handle))] else out).
Proof.
  unfold constructor, try_catch, bind, client_connect. cbn [db].
  destruct (connect (new_client (default defaults config))) as [d [err|[]]];
    rewrite send_log_eq; unfold logged; cbn; repeat split.
Qed.

Lemma constructor_quiet {Config : Type} (new_client : Config -> DB)
    (connect : DB -> DB * (Error + unit)) (defaults : Config)
    (config : option Config) (out : list Line) (k : nat) :
  log (fst (constructor new_client connect defaults config (Some false) out k)) = false /\
  console (fst (constructor new_client connect defaults config (Some false) out k)) = out.
Proof.
  unfold constructor, try_catch, bind, client_connect. cbn [db].
  destruct (connect (new_client (default defaults config))) as [d [err|[]]];
    rewrite send_log_eq; unfold logged; cbn; auto.
Qed.

(** X25: An instance constructed with logging off never writes to the console:
    construction prints nothing, and from any state with the flag off every
    method leaves the flag off and the console as it was. *)
Theorem silent_instance_stays_silent {Config : Type} (new_client : Config -> DB)
    (connect : DB -> DB * (Error + unit)) (defaults : Config)
    (config : option Config) (out : list Line) (k : nat) :
  (let w := fst (constructor new_client connect defaults config (Some false) out k) in
   log w = false /\ console w = out) /\
  (forall (w : World DB unit), log w = false ->
     (forall q args,
        log (fst (query q args w)) = false /\ console (fst (query q args w)) = console w) /\
     (forall queries bodies,
        log (fst (transaction queries bodies w)) = false /\
        console (fst (transaction queries bodies w)) = console w) /\
     (forall qrs args,
        log (fst (multiquery qrs args w)) = false /\
        console (fst (multiquery qrs args w)) = console w)).
Proof.
  split.
  - exact (constructor_quiet new_client connect defaults config out k).
  - intros w Hoff. split; [|split].
    + intros q args. destruct (blind_query (L := unit) q args) as [_ Hq]. exact (Hq w Hoff).
    + intros queries bodies.
      destruct (blind_transaction_body (L := unit) queries bodies) as [_ Hq].
      unfold transaction, async_call.
      destruct (Hq w Hoff) as [H1 H2].
      destruct (transaction_body queries bodies w) as [w1 [e|p]]; auto.
    + intros qrs args.
      destruct (blind_multiquery_body (L := unit) qrs args) as [_ Hq].
      unfold multiquery, async_call.
      destruct (Hq w Hoff) as [H1 H2].
      destruct (multiquery_body qrs args w) as [w1 [e|p]]; auto.
Qed.


(** ** How calls compose *)

(** X13: Nothing is remembered between calls: the same successful transaction
    run twice sends its statements twice, BEGIN and COMMIT included, and both
    calls resolve; there is no deduplication. *)
Theorem transaction_twice_commits_twice {L} (w : World DB L) (queries : list string)
    (bodies : list JsVal) (d1 d2 d3 d4 d5 d6 : DB) (rb rc rb' rc' : QueryResult)
    (rs rs' : list Response) :
  exec (db w) "BEGIN" [] = (d1, inr rb) ->
  feed d1 (map item_statement (zip_bodies 0 queries bodies)) = (d2, rs) ->
  forallb step_succeeds rs = true ->
  exec d2 "COMMIT" [] = (d3, inr rc) ->
  exec d3 "BEGIN" [] = (d4, inr rb') ->
  feed d4 (map item_statement (zip_bodies 0 queries bodies)) = (d5, rs') ->
  forallb step_succeeds rs' = true ->
  exec d5 "COMMIT" [] = (d6, inr rc') ->
  exists w1 w2,
    transaction queries bodies w = (w1, Fulfilled (final_result None rs)) /\
    transaction queries bodies w1 = (w2, Fulfilled (final_result None rs')) /\
    wire w2 = wire w ++ tx_statements queries bodies ++ tx_statements queries bodies /\
    db w2 = d6.
Proof.
  intros Hb Hfeed Hok Hc Hb' Hfeed' Hok' Hc'.
  destruct (transaction_commits w queries bodies _ _ _ _ _ _ Hb Hfeed Hok Hc)
    as (w1 & Hrun1 & Hd1 & Hw1 & _).
  rewrite <- Hd1 in Hb'.
  destruct (transaction_commits w1 queries bodies _ _ _ _ _ _ Hb' Hfeed' Hok' Hc')
    as (w2 & Hrun2 & Hd2 & Hw2 & _).
  exists w1, w2. repeat split; auto.
  rewrite Hw2, Hw1, <- app_assoc. reflexivity.
Qed.

(** X23: The report of a batch does not depend on the order in which the items
    settle: recording the items' outcomes in any order [order] that names
    every index once gives the report the call resolves with. *)
Theorem batch_report_any_settle_order {L} (qrs : list (string * JsVal)) (args : list JsVal)
    (w : World DB L) (queryArgs : list (string * JsVal)) (order : list nat) :
  batch_queryArgs qrs (args_first args) = inr queryArgs ->
  order ≡ₚ seq 0 (length queryArgs) ->
  snd (multiquery qrs args w) =
  Fulfilled
    (set_operation_time (clock (S (reads w)) - clock (reads w))
       (record_in_order (nullish (args_last args) (JBool false)) queryArgs
          (snd (feed (db w) (map item_statement queryArgs))) order
          (initial_resp (length qrs)))).
Proof.
  intros Hqa Hperm.
  destruct (feed (db w) (map item_statement queryArgs)) as [d' rs] eqn:Hfeed.
  rewrite (multiquery_eq qrs args w queryArgs d' rs Hqa Hfeed). cbn zeta. cbn [snd].
  rewrite (settle_order_irrelevant _ _ _ _ _ Hperm). reflexivity.
Qed.

End Ninja.

(** * Concrete runs on the scripted driver *)

(** Two INSERTs that both succeed: the call resolves with the result of the
    second one and COMMIT is the last statement sent. *)
Lemma transaction_all_steps_succeed_witness :
  exists w',
    transaction scripted ["INSERT INTO t VALUES (1)"; "INSERT INTO t VALUES (2)"] []
      (fresh true [answered "BEGIN" []; answered "INSERT" []; answered "INSERT" one_row])
    = (w', Fulfilled (Some (result_of (Some "INSERT") one_row))) /\
    last (wire w') = Some ("COMMIT", []).
Proof.
  destruct (transaction_all_steps_succeed scripted
              (fresh true [answered "BEGIN" []; answered "INSERT" []; answered "INSERT" one_row])
              ["INSERT INTO t VALUES (1)"; "INSERT INTO t VALUES (2)"] []
              [answered "INSERT" []; answered "INSERT" one_row] [] []
              (result_of (Some "BEGIN") []) (result_of (Some "COMMIT") one_row)
              [answered "INSERT" []; answered "INSERT" one_row]
              eq_refl eq_refl eq_refl eq_refl)
    as (w' & Hrun & _ & Hlast & _).
  exists w'. split; [exact Hrun|exact Hlast].
Defined.

(** No queries on a healthy connection: BEGIN, COMMIT, and [undefined]. *)
Lemma transaction_of_no_queries_witness :
  exists w',
    transaction scripted [] [] (fresh true []) = (w', Fulfilled None) /\
    wire w' = [("BEGIN", []); ("COMMIT", [])].
Proof.
  destruct (transaction_of_no_queries scripted (fresh true []) [] [] []
              (result_of (Some "BEGIN") one_row) (result_of (Some "COMMIT") one_row)
              eq_refl eq_refl)
    as (w' & Hrun & Hw & _).
  exists w'. split; [exact Hrun|exact Hw].
Defined.

(** C1: a first step without a command tag, followed by a second step.
    ROLLBACK goes out and the call is rejected with "Transaction failed", but
    the loop goes on: the second query runs after the ROLLBACK and COMMIT is
    sent as well. *)
Theorem transaction_runs_on_after_rollback :
  transaction scripted ["INSERT INTO t VALUES (1)"; "INSERT INTO t VALUES (2)"] []
    (fresh false [answered "BEGIN" []; inr (result_of None [])])
  = (mkWorld false []
       [("BEGIN", []); ("INSERT INTO t VALUES (1)", [JUndefined]); ("ROLLBACK", []);
        ("INSERT INTO t VALUES (2)", [JUndefined]); ("COMMIT", [])]
       [] 0 tt,
     Rejected (mkError "Transaction failed")).
Proof. vm_compute. reflexivity. Qed.

(** C4: a connection on which every statement fails.  BEGIN throws, the
    handler sends ROLLBACK, that throws as well, and [reject] is never
    reached: the promise of the call stays pending. *)
Theorem transaction_hangs_when_rollback_throws :
  transaction scripted ["INSERT INTO t VALUES (1)"] []
    (fresh false [inl (mkError "connection lost"); inl (mkError "connection lost")])
  = (mkWorld false [] [("BEGIN", []); ("ROLLBACK", [])] [] 0 tt, Pending).
Proof. vm_compute. reflexivity. Qed.

(** A step that throws after an earlier step failed without a tag: the
    handler rolls back again, but the promise keeps its first rejection. *)
Example transaction_keeps_first_rejection :
  transaction scripted ["INSERT INTO t VALUES (1)"; "INVALID SQL"] []
    (fresh false [answered "BEGIN" []; inr (result_of None []); answered "ROLLBACK" [];
                  inl (mkError "syntax error")])
  = (mkWorld false []
       [("BEGIN", []); ("INSERT INTO t VALUES (1)", [JUndefined]); ("ROLLBACK", []);
        ("INVALID SQL", [JUndefined]); ("ROLLBACK", [])]
       [] 0 tt,
     Rejected (mkError "Transaction failed")).
Proof. vm_compute. reflexivity. Qed.

(** C2: three SELECTs, the second answered with zero rows.  The report
    counts two completed items and lists index 1 as failed with its error,
    there is no fatal error, and yet the success flag is still [true]. *)
Theorem batch_zero_rows_keeps_success_flag :
  exists w' r,
    multiquery scripted wall_clock three_selects [] (fresh false second_is_empty)
    = (w', Fulfilled r) /\
    completed r = 2 /\
    failed_query_list r !! 1 = Some ("SELECT * FROM b", JArr []) /\
    error_list r !! 1 = Some (mkError "Query returned no rows") /\
    fatal_error r = None /\
    success r = true.
Proof.
  eexists _, _. split; [vm_compute; reflexivity|]. vm_compute. repeat split.
Qed.

(** With the parameter lists given separately, the second SELECT, answered
    without rows, is entered as a failure with the parameters that were sent,
    [[2]]; the query submitted at that position carries [[]]. *)
Lemma batch_records_dispatched_query :
  exists w' r,
    multiquery scripted wall_clock three_selects [one_list_each]
      (fresh false second_is_empty) = (w', Fulfilled r) /\
    second_is_empty !! 1 = Some (inr (result_of (Some "SELECT") [])) /\
    three_selects !! 1 = Some ("SELECT * FROM b", JArr []) /\
    failed_query_list r !! 1 = Some ("SELECT * FROM b", JArr [JNum 2]) /\
    failed_query_list r !! 1 <> three_selects !! 1.
Proof.
  eexists _, _. split; [vm_compute; reflexivity|].
  split; [reflexivity|]. split; [reflexivity|].
  split; [vm_compute; reflexivity|].
  vm_compute. discriminate.
Qed.

(** The same batch through the general statement: the entry has the
    submitted text and the second parameter list, and the completed count
    stays at two. *)
Lemma batch_zero_rows_is_failure_witness :
  exists w' r,
    multiquery scripted wall_clock three_selects [one_list_each]
      (fresh false second_is_empty) = (w', Fulfilled r) /\
    failed_query_list r !! 1 = Some ("SELECT * FROM b", JArr [JNum 2]) /\
    error_list r !! 1 = Some (mkError "Query returned no rows") /\
    success_query_list r !! 1 = None /\
    completed r = 2 /\
    fst <$> three_selects !! 1 = Some "SELECT * FROM b" /\
    js_index one_list_each 1 = inr (JArr [JNum 2]).
Proof.
  exact (batch_zero_rows_is_failure scripted wall_clock three_selects [one_list_each]
           (fresh false second_is_empty) three_selects_dispatched [] second_is_empty 1
           ("SELECT * FROM b", JArr [JNum 2]) (result_of (Some "SELECT") [])
           eq_refl eq_refl eq_refl eq_refl eq_refl).
Defined.

(** Three UPDATEs that all return rows: everything completed, flag set. *)
Example batch_all_productive :
  exists w' r,
    multiquery scripted wall_clock
      [("UPDATE a SET x = 1 RETURNING *", JArr []); ("UPDATE b SET x = 1 RETURNING *", JArr []);
       ("UPDATE c SET x = 1 RETURNING *", JArr [])] [] (fresh false [])
    = (w', Fulfilled r) /\
    completed r = 3 /\ size (failed_query_list r) = 0 /\ success r = true.
Proof.
  eexists _, _. split; [vm_compute; reflexivity|]. vm_compute. repeat split.
Qed.


(** * Further concrete runs *)

(** A SELECT answered with one row gets the hook. *)
Lemma query_hook_only_on_select_witness :
  exists res',
    snd (query scripted "SELECT * FROM a" [] (fresh true [answered "SELECT" one_row]))
    = inr res' /\
    to_excel res' = true.
Proof.
  destruct (query_hook_only_on_select scripted "SELECT * FROM a" []
              (fresh true [answered "SELECT" one_row]) (result_of (Some "SELECT") one_row)
              eq_refl)
    as (res' & Hrun & _ & _ & _ & Hhook & _).
  exists res'. split; [exact Hrun|]. apply Hhook. reflexivity.
Defined.


(** The first INSERT comes back without a command tag: ROLLBACK follows it
    at once and the call ends rejected. *)
Lemma transaction_failed_step_witness :
  exists w' rest,
    transaction scripted two_inserts [] (fresh false [answered "BEGIN" []; no_tag])
    = (w', Rejected (mkError "Transaction failed")) /\
    wire w' = ("BEGIN", []) :: ("INSERT INTO t VALUES (1)", [JUndefined])
              :: ("ROLLBACK", []) :: rest.
Proof.
  exact (transaction_failed_step scripted (fresh false [answered "BEGIN" []; no_tag])
           two_inserts [] [] [("INSERT INTO t VALUES (2)", JUndefined)]
           ("INSERT INTO t VALUES (1)", JUndefined)
           [no_tag] [no_tag] [] [] (result_of (Some "BEGIN") []) (result_of None [])
           (result_of (Some "ROLLBACK") one_row) []
           eq_refl eq_refl eq_refl eq_refl eq_refl eq_refl eq_refl).
Defined.

(** BEGIN fails on a connection that then answers the ROLLBACK. *)
Lemma transaction_begin_throws_witness :
  exists w',
    transaction scripted two_inserts [] (fresh false [inl (mkError "connection lost")])
    = (w', Rejected (mkError "connection lost")) /\
    wire w' = [("BEGIN", []); ("ROLLBACK", [])].
Proof.
  exact (transaction_begin_throws scripted (fresh false [inl (mkError "connection lost")])
           two_inserts [] (mkError "connection lost") [] []
           (result_of (Some "ROLLBACK") one_row) eq_refl eq_refl).
Defined.

(** The second statement is rejected by the driver. *)
Lemma transaction_step_throws_witness :
  exists w',
    transaction scripted ["INSERT INTO t VALUES (1)"; "INVALID SQL"] []
      (fresh false [answered "BEGIN" []; answered "INSERT" []; inl (mkError "syntax error")])
    = (w', Rejected (mkError "syntax error")) /\
    wire w' = [("BEGIN", []); ("INSERT INTO t VALUES (1)", [JUndefined]);
               ("INVALID SQL", [JUndefined]); ("ROLLBACK", [])].
Proof.
  exact (transaction_step_throws scripted
           (fresh false [answered "BEGIN" []; answered "INSERT" []; inl (mkError "syntax error")])
           ["INSERT INTO t VALUES (1)"; "INVALID SQL"] []
           [("INSERT INTO t VALUES (1)", JUndefined)] [] ("INVALID SQL", JUndefined)
           (mkError "syntax error")
           [answered "INSERT" []; inl (mkError "syntax error")]
           [inl (mkError "syntax error")] [] []
           (result_of (Some "BEGIN") []) (result_of (Some "ROLLBACK") one_row)
           [answered "INSERT" []]
           eq_refl eq_refl eq_refl eq_refl eq_refl eq_refl).
Defined.

(** COMMIT fails after both INSERTs succeeded. *)
Lemma transaction_commit_throws_witness :
  exists w',
    transaction scripted two_inserts []
      (fresh false [answered "BEGIN" []; answered "INSERT" []; answered "INSERT" [];
                    inl (mkError "could not serialize")])
    = (w', Rejected (mkError "could not serialize")) /\
    wire w' = [("BEGIN", []); ("INSERT INTO t VALUES (1)", [JUndefined]);
               ("INSERT INTO t VALUES (2)", [JUndefined]); ("COMMIT", []);
               ("ROLLBACK", [])].
Proof.
  exact (transaction_commit_throws scripted
           (fresh false [answered "BEGIN" []; answered "INSERT" []; answered "INSERT" [];
                         inl (mkError "could not serialize")])
           two_inserts [] (mkError "could not serialize")
           [answered "INSERT" []; answered "INSERT" []; inl (mkError "could not serialize")]
           [inl (mkError "could not serialize")] [] []
           (result_of (Some "BEGIN") []) (result_of (Some "ROLLBACK") one_row)
           [answered "INSERT" []; answered "INSERT" []]
           eq_refl eq_refl eq_refl eq_refl eq_refl).
Defined.

(** The ROLLBACK after a tag-less first INSERT fails; the handler's ROLLBACK
    is answered. *)
Lemma transaction_rollback_throws_witness :
  exists w',
    transaction scripted two_inserts []
      (fresh false [answered "BEGIN" []; no_tag; inl (mkError "connection lost")])
    = (w', Rejected (mkError "connection lost")) /\
    wire w' = [("BEGIN", []); ("INSERT INTO t VALUES (1)", [JUndefined]);
               ("ROLLBACK", []); ("ROLLBACK", [])].
Proof.
  exact (transaction_rollback_throws scripted
           (fresh false [answered "BEGIN" []; no_tag; inl (mkError "connection lost")])
           two_inserts [] [] [("INSERT INTO t VALUES (2)", JUndefined)]
           ("INSERT INTO t VALUES (1)", JUndefined) (mkError "connection lost")
           [no_tag; inl (mkError "connection lost")]
           [no_tag; inl (mkError "connection lost")]
           [inl (mkError "connection lost")] [] []
           (result_of (Some "BEGIN") []) (result_of None [])
           (result_of (Some "ROLLBACK") one_row) []
           eq_refl eq_refl eq_refl eq_refl eq_refl eq_refl eq_refl eq_refl).
Defined.

(** A resolved run of two INSERTs: both were answered with a tag. *)
Lemma transaction_resolves_only_after_commit_witness :
  exists rs,
    snd (feed scripted [] (map item_statement (zip_bodies 0 two_inserts []))) = rs /\
    forallb step_succeeds rs = true.
Proof.
  destruct (transaction_resolves_only_after_commit scripted (fresh false [])
              (mkWorld false []
                 [("BEGIN", []); ("INSERT INTO t VALUES (1)", [JUndefined]);
                  ("INSERT INTO t VALUES (2)", [JUndefined]); ("COMMIT", [])] [] 0 tt)
              two_inserts [] (Some (result_of (Some "INSERT") one_row)) eq_refl)
    as (d1 & d2 & rb & rc & rs & Hb & Hfeed & Hok & _).
  exists rs. split; [|exact Hok].
  injection Hb as <- _. rewrite Hfeed. reflexivity.
Defined.

(** The picky driver answers every ROLLBACK, so a transaction with an
    invalid statement settles. *)
Lemma transaction_settles_when_rollback_answered_witness :
  (forall d, exists d' rr, picky d "ROLLBACK" [] = (d', inr rr)) /\
  snd (transaction picky ["INSERT INTO t VALUES (1)"; "INVALID SQL"] []
         (mkWorld false 0 [] [] 0 tt)) <> Pending.
Proof.
  assert (H : forall d, exists d' rr, picky d "ROLLBACK" [] = (d', inr rr)).
  { intros d. eexists _, _. reflexivity. }
  split; [exact H|].
  exact (transaction_settles_when_rollback_answered picky (mkWorld false 0 [] [] 0 tt)
           ["INSERT INTO t VALUES (1)"; "INVALID SQL"] [] H).
Defined.

(** Two runs of the same two INSERTs on a healthy connection. *)
Lemma transaction_twice_commits_twice_witness :
  exists w1 w2,
    transaction scripted two_inserts [] (fresh false []) =
      (w1, Fulfilled (Some (result_of (Some "INSERT") one_row))) /\
    transaction scripted two_inserts [] w1 =
      (w2, Fulfilled (Some (result_of (Some "INSERT") one_row))) /\
    wire w2 = tx_statements two_inserts [] ++ tx_statements two_inserts [] /\
    db w2 = [].
Proof.
  exact (transaction_twice_commits_twice scripted (fresh false []) two_inserts []
           [] [] [] [] [] []
           (result_of (Some "BEGIN") one_row) (result_of (Some "COMMIT") one_row)
           (result_of (Some "BEGIN") one_row) (result_of (Some "COMMIT") one_row)
           [answered "INSERT" one_row; answered "INSERT" one_row]
           [answered "INSERT" one_row; answered "INSERT" one_row]
           eq_refl eq_refl eq_refl eq_refl eq_refl eq_refl eq_refl eq_refl).
Defined.


(** The second SELECT is refused: the flag is cleared and there is no fatal
    error. *)
Lemma batch_success_flag_witness :
  exists w' r,
    multiquery scripted wall_clock three_selects [] (fresh false second_is_refused)
    = (w', Fulfilled r) /\
    fatal_error r = None /\
    success r = false.
Proof.
  exact (batch_success_flag scripted wall_clock three_selects []
           (fresh false second_is_refused) three_selects [] second_is_refused
           eq_refl eq_refl).
Defined.

(** The same batch: the cleared flag comes with the driver's error in the
    error list. *)
Lemma batch_flag_cleared_with_error_witness :
  exists i e,
    error_list
      (report_of (multiquery scripted wall_clock three_selects []
                    (fresh false second_is_refused))) !! i = Some e.
Proof.
  exact (batch_flag_cleared_with_error scripted wall_clock three_selects []
           (fresh false second_is_refused)
           (fst (multiquery scripted wall_clock three_selects []
                   (fresh false second_is_refused)))
           (report_of (multiquery scripted wall_clock three_selects []
                         (fresh false second_is_refused)))
           eq_refl eq_refl).
Defined.

(** Three SELECTs with logging on: three blue lines and the summary. *)
Lemma batch_console_witness :
  exists w' r,
    multiquery scripted wall_clock three_selects [] (fresh true second_is_empty)
    = (w', Fulfilled r) /\
    console w' =
      [(colors blue, "success query: SELECT * FROM a");
       (colors blue, "success query: SELECT * FROM b");
       (colors blue, "success query: SELECT * FROM c");
       (colors white, "new 2/3 multi-query")].
Proof.
  exact (batch_console scripted wall_clock three_selects [] (fresh true second_is_empty)
           three_selects [] second_is_empty eq_refl eq_refl).
Defined.

(** [null] as parameters and [true] as flag: the queries go out unchanged
    and the rows of the first SELECT are kept. *)
Lemma batch_rows_follow_last_argument_witness :
  exists w' r,
    multiquery scripted wall_clock three_selects [JNull; JBool true]
      (fresh false second_is_empty)
    = (w', Fulfilled r) /\
    success_query_list r !! 0 = Some one_row /\
    success_query_list r !! 1 = None.
Proof.
  destruct (batch_rows_follow_last_argument scripted wall_clock three_selects
              [JNull; JBool true] (fresh false second_is_empty) three_selects eq_refl)
    as (w' & r & Hrun & Hrows).
  exists w', r. split; [exact Hrun|]. split; [exact (Hrows 0)|exact (Hrows 1)].
Defined.

(** The number zero as the single trailing argument. *)
Lemma batch_falsy_argument_is_ignored_witness :
  multiquery scripted wall_clock three_selects [JNum 0] (fresh true second_is_empty)
  = multiquery scripted wall_clock three_selects [] (fresh true second_is_empty).
Proof.
  exact (batch_falsy_argument_is_ignored scripted wall_clock three_selects (JNum 0)
           (fresh true second_is_empty) eq_refl).
Defined.

(** The third item settles first, then the first, then the second. *)
Lemma batch_report_any_settle_order_witness :
  snd (multiquery scripted wall_clock three_selects [] (fresh false second_is_refused)) =
  Fulfilled
    (set_operation_time 7
       (record_in_order (JBool false) three_selects second_is_refused [2; 0; 1]
          (initial_resp 3))).
Proof.
  apply (batch_report_any_settle_order scripted wall_clock three_selects []
           (fresh false second_is_refused) three_selects [2; 0; 1] eq_refl).
  apply (Permutation_app_comm [2] [0; 1]).
Defined.


(** One SELECT with one parameter list, logging on: one statement, one blue
    line, and the result with its export hook. *)
Lemma query_one_statement_one_line_witness :
  wire (fst (query scripted "SELECT * FROM t WHERE id = $1" [JArr [JNum 1]]
               (fresh true [answered "SELECT" one_row])))
  = [("SELECT * FROM t WHERE id = $1", [JArr [JNum 1]])] /\
  console (fst (query scripted "SELECT * FROM t WHERE id = $1" [JArr [JNum 1]]
                  (fresh true [answered "SELECT" one_row])))
  = [(colors blue, "success query: SELECT * FROM t WHERE id = $1")] /\
  snd (query scripted "SELECT * FROM t WHERE id = $1" [JArr [JNum 1]]
         (fresh true [answered "SELECT" one_row]))
  = inr (attach_excel (result_of (Some "SELECT") one_row)).
Proof.
  destruct (query_one_statement_one_line scripted "SELECT * FROM t WHERE id = $1"
              [JArr [JNum 1]] (fresh true [answered "SELECT" one_row]) (le_n 1))
    as (Hwire & _ & Hconsole & _ & Hres).
  split; [exact Hwire|]. split; [exact Hconsole|].
  exact (Hres (result_of (Some "SELECT") one_row) eq_refl).
Defined.

(** Two INSERTs with one body: the first goes out with it, the second with
    [undefined], between BEGIN and COMMIT. *)
Lemma transaction_bodies_by_position_witness :
  exists sent,
    wire (fst (transaction scripted two_inserts [JArr [JNum 7]] (fresh false []))) = sent /\
    length sent = 4 /\
    sent !! 1 = Some ("INSERT INTO t VALUES (1)", [JArr [JNum 7]]) /\
    sent !! 2 = Some ("INSERT INTO t VALUES (2)", [JUndefined]).
Proof.
  destruct (transaction_bodies_by_position scripted (fresh false []) two_inserts
              [JArr [JNum 7]] [] [] []
              (result_of (Some "BEGIN") one_row) (result_of (Some "COMMIT") one_row)
              [answered "INSERT" one_row; answered "INSERT" one_row]
              eq_refl eq_refl eq_refl eq_refl)
    as (sent & Hwire & Hlen & _ & _ & Hpos).
  exists sent. split; [exact Hwire|]. split; [exact Hlen|].
  split; [exact (Hpos 0 _ eq_refl)|exact (Hpos 1 _ eq_refl)].
Defined.
